(** * License gate, license store and rate limiter of the dental-note backend

    A shallow embedding of [backend/auth.py] (token issue and verification,
    the license table and its lifecycle operations, the sliding-window rate
    limiter) and of the two note-generation endpoints of [main.py].

    Conventions of the embedding:
    - the [licenses] table is the list of its rows in primary-key order; a
      session that loads a row, assigns attributes and commits is a
      rewrite of that row in the list;
    - [datetime] values are integers counting microseconds since the epoch
      ([datetime.utcnow()] and [timedelta] are exact at that resolution);
      JWT [exp] claims are integers counting seconds;
    - [time.time()] readings are binary64 floats, subtracted as the machine
      subtracts them;
    - every clock reading a function makes is an explicit argument;
    - the functions of the [jwt] package and the transcription and
      note-generation vendors are external: they are parameters of the
      sections below; which names a module can resolve is read off its
      import lines. *)

From Stdlib Require Import ZArith Lia String List Bool.
From Stdlib Require Import PrimFloat FloatOps SpecFloat.
From stdpp Require Import gmap strings list pretty.
Import ListNotations.

Local Open Scope Z_scope.

(** ** Exceptions and results *)

Inductive Exception : Type :=
| HTTPException (status_code : Z) (detail : string)
                (headers : list (string * string))
| IntegrityError (column : string)
| InvalidTokenError
| AttributeError (message : string).

Inductive result (A : Type) : Type :=
| Return (a : A)
| Raise (e : Exception).

Arguments Return {A} a.
Arguments Raise {A} e.

Definition HTTP_400_BAD_REQUEST : Z := 400.
Definition HTTP_401_UNAUTHORIZED : Z := 401.
Definition HTTP_403_FORBIDDEN : Z := 403.
Definition HTTP_429_TOO_MANY_REQUESTS : Z := 429.
Definition HTTP_500_INTERNAL_SERVER_ERROR : Z := 500.

Definition www_authenticate : list (string * string) :=
  [("WWW-Authenticate", "Bearer")]%string.

(** ** The [License] model (auth.py, class [License]) *)

Definition datetime : Type := Z.

Record License : Type := mkLicense {
  lic_id : Z;
  user_id : string;
  email : string;
  plan_type : string;
  active : bool;
  notes_limit : Z;
  notes_used : Z;
  created_at : datetime;
  expires_at : datetime;
  stripe_customer_id : string;
  stripe_subscription_id : string
}.

(** [timedelta(days=n)] and [timedelta(minutes=n)], in microseconds. *)
Definition timedelta_days (n : Z) : Z := n * 86400 * 1000000.
Definition timedelta_minutes (n : Z) : Z := n * 60 * 1000000.

(** Attribute assignments made on a loaded row. *)
Definition set_notes_used (v : Z) (l : License) : License :=
  mkLicense (lic_id l) (user_id l) (email l) (plan_type l) (active l)
            (notes_limit l) v (created_at l) (expires_at l)
            (stripe_customer_id l) (stripe_subscription_id l).

Definition set_active (b : bool) (l : License) : License :=
  mkLicense (lic_id l) (user_id l) (email l) (plan_type l) b
            (notes_limit l) (notes_used l) (created_at l) (expires_at l)
            (stripe_customer_id l) (stripe_subscription_id l).

Definition set_expires_at (d : datetime) (l : License) : License :=
  mkLicense (lic_id l) (user_id l) (email l) (plan_type l) (active l)
            (notes_limit l) (notes_used l) (created_at l) d
            (stripe_customer_id l) (stripe_subscription_id l).

(** ** Queries on the table *)

(** [db.query(License).filter(c).first()]. *)
Definition first {A : Type} (rows : list A) : option A :=
  match rows with
  | [] => None
  | r :: _ => Some r
  end.

Definition by_user_id (uid : string) (l : License) : bool :=
  String.eqb (user_id l) uid.

Definition by_subscription (sid : string) (l : License) : bool :=
  String.eqb (stripe_subscription_id l) sid.

Definition by_email (e : string) (l : License) : bool :=
  String.eqb (email l) e.

(** The row that [.filter(c).first()] loaded, rewritten by [f] at commit. *)
Fixpoint update_first (c : License -> bool) (f : License -> License)
         (rows : list License) : list License :=
  match rows with
  | [] => []
  | r :: rest => if c r then f r :: rest else r :: update_first c f rest
  end.

(** ** Token codec (auth.py, [create_token]) and the gate ([verify_token]) *)

(** The dictionary handed to [jwt.encode]: [exp] is still a [datetime]. *)
Record Claims : Type := mkClaims {
  to_sub : string;
  to_email : string;
  to_plan : string;
  to_exp : datetime
}.

(** The dictionary [jwt.decode] returns: [exp] is in whole seconds. *)
Record Payload : Type := mkPayload {
  sub : string;
  email_claim : string;
  plan : string;
  exp : Z
}.

(** What [jwt.decode] does: it returns the payload or raises one of the
    package's exceptions ([InvalidTokenError] and the classes below it,
    [ExpiredSignatureError] among them). *)
Inductive Decoded : Type :=
| DecodeOk (payload : Payload)
| DecodeFails.

(** The HTTP errors [verify_token] constructs (lines 86, 102, 114, 121,
    128 and 144). *)
Definition missing_token : Exception :=
  HTTPException HTTP_401_UNAUTHORIZED "Missing authentication token"
    www_authenticate.

Definition token_expired : Exception :=
  HTTPException HTTP_401_UNAUTHORIZED "Token has expired" www_authenticate.

Definition invalid_license : Exception :=
  HTTPException HTTP_401_UNAUTHORIZED "Invalid license. Please subscribe."
    www_authenticate.

Definition license_inactive : Exception :=
  HTTPException HTTP_403_FORBIDDEN
    "Your license is inactive. Please renew your subscription."
    www_authenticate.

Definition quota_exhausted : Exception :=
  HTTPException HTTP_403_FORBIDDEN
    "You have reached your monthly note generation limit. Please upgrade your plan."
    www_authenticate.

Definition invalid_token : Exception :=
  HTTPException HTTP_401_UNAUTHORIZED "Invalid authentication token"
    www_authenticate.

(** Line 143, [except jwt.JWTError]. The class expression of a handler is
    evaluated when an exception reaches it. The [jwt] package imported at
    line 8 has no attribute [JWTError] (the base class of its exceptions
    is [PyJWTError]), so the evaluation raises [AttributeError] whatever
    the exception was, and the handler's body (lines 144-148, which would
    raise [invalid_token]) is never entered. *)
Definition jwt_attribute_error : Exception :=
  AttributeError "module 'jwt' has no attribute 'JWTError'".

(** The [Bearer ] prefix (lines 93-94). *)
Definition strip_bearer (token : string) : string :=
  if String.prefix "Bearer " token
  then substring 7 (String.length token - 7) token
  else token.

Section Auth.

(** Settings read from the environment. *)
Variable JWT_SECRET : option string.
Variable JWT_ALGORITHM : string.
Variable JWT_EXPIRATION_MINUTES : Z.

(** The [jwt] package. [jwt_decode] also reads the clock. *)
Variable jwt_encode : Claims -> option string -> string -> string.
Variable jwt_decode :
  string -> option string -> list string -> datetime -> Decoded.

(** The server's local time minus UTC, in microseconds:
    [datetime.fromtimestamp] answers in local time, [datetime.utcnow]
    in UTC, and line 101 compares the two. *)
Variable local_utc_offset : Z.

Definition fromtimestamp (ts : Z) : datetime :=
  ts * 1000000 + local_utc_offset.

Definition create_token (uid em plan_ty : string) (utcnow : datetime)
  : string :=
  let expires := utcnow + timedelta_minutes JWT_EXPIRATION_MINUTES in
  let to_encode := mkClaims uid em plan_ty expires in
  jwt_encode to_encode JWT_SECRET JWT_ALGORITHM.

(** The payload of a token issued at [utcnow], as a decoder returns it:
    the claims handed to the encoder, the expiry cut to whole seconds. *)
Definition issued_payload (uid em plan_ty : string) (utcnow : datetime)
  : Payload :=
  mkPayload uid em plan_ty
    ((utcnow + timedelta_minutes JWT_EXPIRATION_MINUTES) / 1000000).

(** Lines 97-141: the body of the [try], on the token without its prefix. *)
Definition verify_token_body (token : string) (utcnow : datetime)
           (db : list License) : result Payload * list License :=
  match jwt_decode token JWT_SECRET [JWT_ALGORITHM] utcnow with
  | DecodeFails => (Raise InvalidTokenError, db)
  | DecodeOk payload =>
      if fromtimestamp (exp payload) <? utcnow then (Raise token_expired, db)
      else
        match first (List.filter (by_user_id (sub payload)) db) with
        | None => (Raise invalid_license, db)
        | Some license =>
            if negb (active license) then (Raise license_inactive, db)
            else if notes_used license >=? notes_limit license then
              (Raise quota_exhausted, db)
            else
              (Return payload,
               update_first (by_user_id (sub payload))
                 (fun l => set_notes_used (notes_used l + 1) l) db)
        end
  end.

Definition verify_token (token : option string) (utcnow : datetime)
           (db : list License) : result Payload * list License :=
  match token with
  | None => (Raise missing_token, db)
  | Some token =>
      if String.eqb token "" then (Raise missing_token, db)
      else
        let token := strip_bearer token in
        match verify_token_body token utcnow db with
        | (Return payload, db') => (Return payload, db')
        | (Raise _, db') => (Raise jwt_attribute_error, db')
        end
  end.

End Auth.

(** ** License lifecycle (auth.py, lines 191-304) *)

(** The primary key the table gives a new row. *)
Definition next_id (db : list License) : Z :=
  1 + fold_right Z.max 0 (map lic_id db).

(** [create_license]. The insert is refused by the unique index on
    [email] when another row holds the address; the unique index on
    [user_id] cannot refuse it, since the insert is only reached when no
    row has that [user_id]. *)
Definition create_license (uid em plan_ty : string) (limit : Z)
           (customer subscription : string) (utcnow : datetime)
           (db : list License) : result License * list License :=
  match first (List.filter (by_user_id uid) db) with
  | Some existing_license =>
      let updated :=
        mkLicense (lic_id existing_license) (user_id existing_license)
                  (email existing_license) plan_ty true limit 0
                  (created_at existing_license)
                  (utcnow + timedelta_days 30) customer subscription in
      (Return updated,
       update_first (by_user_id uid) (fun _ => updated) db)
  | None =>
      if existsb (by_email em) db then
        (Raise (IntegrityError "licenses.email"), db)
      else
        let new_license :=
          mkLicense (next_id db) uid em plan_ty true limit 0 utcnow
                    (utcnow + timedelta_days 30) customer subscription in
        (Return new_license, db ++ [new_license])
  end.

(** [update_license_status]. *)
Definition update_license_status (subscription : string) (b : bool)
           (db : list License) : option License * list License :=
  match first (List.filter (by_subscription subscription) db) with
  | Some license =>
      (Some (set_active b license),
       update_first (by_subscription subscription) (set_active b) db)
  | None => (None, db)
  end.

(** [reset_monthly_usage]: the rows the query selects, and what the loop
    assigns to each of them. *)
Definition cycle_ended (utcnow : datetime) (l : License) : bool :=
  active l && (expires_at l <? utcnow).

Definition reset_license (utcnow : datetime) (l : License) : License :=
  set_expires_at (utcnow + timedelta_days 30) (set_notes_used 0 l).

Definition reset_monthly_usage (utcnow : datetime) (db : list License)
  : Z * list License :=
  let expired_licenses := List.filter (cycle_ended utcnow) db in
  (Z.of_nat (length expired_licenses),
   map (fun l => if cycle_ended utcnow l then reset_license utcnow l else l)
       db).

(** ** Rate limiter (auth.py, class [RateLimiter]) *)

(** [x < n] for a float [x] and an integer [n]: Python compares the two
    by their exact values. *)
Definition float_lt_int (x : float) (n : Z) : bool :=
  match Prim2SF x with
  | S754_nan => false
  | S754_infinity negative => negative
  | S754_zero _ => 0 <? n
  | S754_finite negative m e =>
      let mantissa := if negative then Z.neg m else Z.pos m in
      if 0 <=? e then mantissa * 2 ^ e <? n
      else mantissa <? n * 2 ^ (- e)
  end.

Section RateLimiter.

Context {K : Type} `{Countable K}.

Record RateLimiter : Type := mkRateLimiter {
  limit : Z;
  window : Z;
  requests : gmap K (list float)
}.

(** [RateLimiter(limit, window)]. *)
Definition new_rate_limiter (lim win : Z) : RateLimiter :=
  mkRateLimiter lim win ∅.

(** [self.requests[identifier]] on a [defaultdict(list)]. *)
Definition requests_of (rl : RateLimiter) (identifier : K) : list float :=
  default [] (requests rl !! identifier).

(** [current_time - req_time < self.window]: a float subtraction, then
    the comparison with the integer. *)
Definition in_window (rl : RateLimiter) (current_time req_time : float)
  : bool :=
  float_lt_int (PrimFloat.sub current_time req_time) (window rl).

Definition allow_request (rl : RateLimiter) (identifier : K)
           (current_time : float) : bool * RateLimiter :=
  let kept :=
    List.filter (in_window rl current_time) (requests_of rl identifier) in
  if Z.of_nat (length kept) <? limit rl then
    (true,
     mkRateLimiter (limit rl) (window rl)
       (<[identifier := kept ++ [current_time]]> (requests rl)))
  else
    (false,
     mkRateLimiter (limit rl) (window rl)
       (<[identifier := kept]> (requests rl))).

(** A run of calls for one identifier, at the given clock readings. *)
Fixpoint allow_requests (rl : RateLimiter) (identifier : K)
         (times : list float) : list bool * RateLimiter :=
  match times with
  | [] => ([], rl)
  | t :: rest =>
      let (allowed, rl1) := allow_request rl identifier t in
      let (answers, rl2) := allow_requests rl1 identifier rest in
      (allowed :: answers, rl2)
  end.

End RateLimiter.

Arguments RateLimiter K {_ _}.

(** ** The note-generation endpoints (main.py) *)

(** [a or b] on a string and an optional string. *)
Definition str_or (a : string) (b : option string) : option string :=
  if String.eqb a "" then b else Some a.

Definition supported_content_types : list string :=
  ["audio/wav"; "audio/x-wav"; "audio/mp3"; "audio/mpeg"; "audio/ogg";
   "application/ogg"; "audio/flac"; "audio/x-m4a"; "audio/mp4"]%string.

Definition extension_map : list (string * string) :=
  [("audio/wav", ".wav"); ("audio/x-wav", ".wav");
   ("audio/mp3", ".mp3"); ("audio/mpeg", ".mp3");
   ("audio/ogg", ".ogg"); ("application/ogg", ".ogg");
   ("audio/flac", ".flac");
   ("audio/x-m4a", ".m4a"); ("audio/mp4", ".m4a")]%string.

(** [d.get(k, dflt)]. *)
Fixpoint dict_get (d : list (string * string)) (k dflt : string) : string :=
  match d with
  | [] => dflt
  | (k', v) :: rest => if String.eqb k' k then v else dict_get rest k dflt
  end.

Definition newline : string := String (Ascii.ascii_of_nat 10) EmptyString.

(** [sep.join(parts)]. *)
Fixpoint join (sep : string) (parts : list string) : string :=
  match parts with
  | [] => EmptyString
  | [p] => p
  | p :: rest => String.append p (String.append sep (join sep rest))
  end.

Record App : Type := mkApp {
  licenses : list License;
  rate_limiter : RateLimiter (option string)
}.

Definition rate_limit_exceeded : Exception :=
  HTTPException HTTP_429_TOO_MANY_REQUESTS
    "Rate limit exceeded. Please try again later." [].

(** The names main.py uses in the audio endpoint without defining or
    importing them (its imports are lines 6 to 21): [Path] at line 168,
    [SessionLocal] at line 188 and [License] at line 191. Looking up such
    a name raises [NameError]; [None] below says that the module has no
    binding for the name. *)
Definition main_Path : option (string -> string) := None.
Definition main_SessionLocal : option unit := None.

(** [str(e)] for the [NameError] of an unbound global. *)
Definition name_error (name : string) : string :=
  String.append "name '" (String.append name "' is not defined").

Section Main.

Variable JWT_SECRET : option string.
Variable JWT_ALGORITHM : string.
Variable jwt_decode :
  string -> option string -> list string -> datetime -> Decoded.
Variable local_utc_offset : Z.

(** The vendors: [inl msg] stands for a raised [Exception(msg)]. *)
Variable generate_soap_note : string -> string + string.
Variable transcribe_audio : list Byte.byte -> string -> string + string.
Variable transcribe_audio_with_diarization :
  list Byte.byte -> string -> string + list (string * string).

Local Abbreviation gate :=
  (verify_token JWT_SECRET JWT_ALGORITHM jwt_decode local_utc_offset).

(** [generate_note_from_text]: [utcnow] is the gate's clock reading,
    [current_time] the limiter's. *)
Definition generate_note_from_text (text : string)
           (authorization client_ip : option string)
           (utcnow : datetime) (current_time : float) (app : App)
  : result string * App :=
  match gate authorization utcnow (licenses app) with
  | (Raise e, db) => (Raise e, mkApp db (rate_limiter app))
  | (Return token_data, db) =>
      let (allowed, rl) :=
        allow_request (rate_limiter app)
          (str_or (sub token_data) client_ip) current_time in
      if negb allowed then (Raise rate_limit_exceeded, mkApp db rl)
      else
        match generate_soap_note text with
        | inr soap_note => (Return soap_note, mkApp db rl)
        | inl _ =>
            (Raise (HTTPException HTTP_500_INTERNAL_SERVER_ERROR
                      "Failed to generate note. Please try again later."
                      []),
             mkApp db rl)
        end
  end.

(** Lines 153-198: the body of the [try] block of the audio endpoint;
    [inl msg] is an exception whose [str] is [msg], caught at line 199. *)
Definition process_audio (content_type filename : string)
           (use_diarization : bool) (audio_content : list Byte.byte)
           (token_data : Payload) (db : list License)
  : (string + string) * list License :=
  let file_ext := dict_get extension_map content_type ".wav" in
  match main_Path with
  | None => (inl (name_error "Path"), db)
  | Some path_suffix =>
      let filename :=
        if String.eqb (path_suffix filename) ""
        then String.append filename file_ext else filename in
      let transcription :=
        if use_diarization then
          match transcribe_audio_with_diarization audio_content filename with
          | inr by_speaker =>
              inr (join (String.append newline newline)
                     (map (fun st => String.append (fst st)
                                       (String.append ": " (snd st)))
                          by_speaker))
          | inl msg => inl msg
          end
        else transcribe_audio audio_content filename in
      match transcription with
      | inl msg => (inl msg, db)
      | inr transcription =>
          match generate_soap_note transcription with
          | inl msg => (inl msg, db)
          | inr soap_note =>
              match main_SessionLocal with
              | None => (inl (name_error "SessionLocal"), db)
              | Some _ =>
                  (inr soap_note,
                   update_first (by_user_id (sub token_data))
                     (fun l => set_notes_used (notes_used l + 1) l) db)
              end
          end
      end
  end.

Definition generate_note_from_audio (content_type filename : string)
           (use_diarization : bool) (audio_content : list Byte.byte)
           (authorization client_ip : option string)
           (utcnow : datetime) (current_time : float) (app : App)
  : result string * App :=
  match gate authorization utcnow (licenses app) with
  | (Raise e, db) => (Raise e, mkApp db (rate_limiter app))
  | (Return token_data, db) =>
      let (allowed, rl) :=
        allow_request (rate_limiter app)
          (str_or (sub token_data) client_ip) current_time in
      if negb allowed then (Raise rate_limit_exceeded, mkApp db rl)
      else if negb (existsb (String.eqb content_type)
                      supported_content_types) then
        (Raise (HTTPException HTTP_400_BAD_REQUEST
                  "Invalid file type. Please upload a supported audio file (WAV, MP3, OGG, FLAC, M4A)."
                  []),
         mkApp db rl)
      else
        match process_audio content_type filename use_diarization
                audio_content token_data db with
        | (inr soap_note, db') => (Return soap_note, mkApp db' rl)
        | (inl msg, db') =>
            (Raise (HTTPException HTTP_500_INTERNAL_SERVER_ERROR
                      (String.append
                         "Failed to process audio and generate note: " msg)
                      []),
             mkApp db' rl)
        end
  end.

End Main.

(** ** The gate's failure taxonomy, as the design states it

    The kinds of failure of a gate call, in the order the design lists
    them, with the status class of each. *)

Inductive GateFailure : Type :=
| MissingToken
| InvalidToken
| ExpiredToken
| NoLicense
| InactiveSubscription
| QuotaExhausted.

Inductive StatusClass : Type :=
| Unauthenticated
| Forbidden.

Definition failure_class (f : GateFailure) : StatusClass :=
  match f with
  | MissingToken | InvalidToken | ExpiredToken | NoLicense => Unauthenticated
  | InactiveSubscription | QuotaExhausted => Forbidden
  end.

Definition status_of_class (c : StatusClass) : Z :=
  match c with
  | Unauthenticated => 401
  | Forbidden => 403
  end.

(** The reason string the code writes for each kind of failure. *)
Definition failure_reason (f : GateFailure) : string :=
  match f with
  | MissingToken => "Missing authentication token"
  | InvalidToken => "Invalid authentication token"
  | ExpiredToken => "Token has expired"
  | NoLicense => "Invalid license. Please subscribe."
  | InactiveSubscription =>
      "Your license is inactive. Please renew your subscription."
  | QuotaExhausted =>
      "You have reached your monthly note generation limit. Please upgrade your plan."
  end.

(** The HTTP error the design's taxonomy assigns to a kind of failure. *)
Definition taxonomy_error (f : GateFailure) : Exception :=
  HTTPException (status_of_class (failure_class f)) (failure_reason f)
    www_authenticate.

(** ** Quota bookkeeping used in the statements *)

(** Every row is within its quota. *)
Definition within_quota (db : list License) : Prop :=
  Forall (fun l => notes_used l <= notes_limit l) db.

(** The rows of one user. *)
Definition licenses_of (uid : string) (db : list License) : list License :=
  List.filter (by_user_id uid) db.

(** [user_id] is a unique column. *)
Definition unique_user_ids (db : list License) : Prop :=
  forall uid, (length (licenses_of uid db) <= 1)%nat.

(** The table [db'] is [db] with one note charged to [uid]: the row the
    gate loads for [uid] was below its limit and has [notes_used] one
    higher in [db']. *)
Definition charged_once (uid : string) (db db' : list License) : Prop :=
  exists license,
    first (licenses_of uid db) = Some license /\
    notes_used license < notes_limit license /\
    db' = update_first (by_user_id uid)
            (fun l => set_notes_used (notes_used l + 1) l) db /\
    first (licenses_of uid db') =
      Some (set_notes_used (notes_used license + 1) license).

(** ** Fixtures for the closed examples *)

(** A decoder given by the finite table of the tokens that verify. As
    the [jwt] package does, it checks the [exp] claim against the clock
    (in UTC) and refuses a token from its expiry on. *)
Fixpoint table_decode (table : list (string * Payload)) (token : string)
         (key : option string) (algorithms : list string) (clock : datetime)
  : Decoded :=
  match table with
  | [] => DecodeFails
  | (t, p) :: rest =>
      if String.eqb t token then
        if exp p * 1000000 <=? clock then DecodeFails else DecodeOk p
      else table_decode rest token key algorithms clock
  end.

(** An encoder that names the token after its subject. *)
Definition tag_encode (c : Claims) (key : option string) (alg : string)
  : string :=
  String.append "jwt." (to_sub c).

Definition ex_secret : option string := Some "s3cret"%string.
Definition ex_alg : string := "HS256".

(** Midnight of 2024-01-01 UTC and one hour later, in seconds. *)
Definition ex_t0 : Z := 1704067200.
Definition ex_payload : Payload :=
  mkPayload "u1" "u1@clinic.example" "starter" (ex_t0 + 3600).

Definition ex_decode := table_decode [("jwt.u1"%string, ex_payload)].

Definition ex_license (limit used : Z) : License :=
  mkLicense 1 "u1" "u1@clinic.example" "starter" true limit used
            (ex_t0 * 1000000) (ex_t0 * 1000000 + timedelta_days 30)
            "cus_1" "sub_1".

Definition ex_other : License :=
  mkLicense 2 "u2" "u2@clinic.example" "pro" true 50 7
            (ex_t0 * 1000000) (ex_t0 * 1000000 + timedelta_days 30)
            "cus_2" "sub_2".

Definition ex_gate :=
  verify_token ex_secret ex_alg ex_decode 0.

(** The offset of a server five hours west of UTC, in microseconds. *)
Definition ex_west : Z := -18000000000.

(** Vendors that always answer. *)
Definition ex_soap (text : string) : string + string :=
  inr (String.append "SOAP: " text).
Definition ex_transcribe (audio : list Byte.byte) (name : string)
  : string + string := inr "patient reports pain"%string.
Definition ex_diarize (audio : list Byte.byte) (name : string)
  : string + list (string * string) :=
  inr [("Speaker 0", "open wide"); ("Speaker 1", "ah")]%string.

(** The limiter of main.py, and one whose window for [u1] is full at
    second 100. *)
Definition ex_limiter : RateLimiter (option string) := new_rate_limiter 10 60.
Definition ex_full_limiter : RateLimiter (option string) :=
  mkRateLimiter 10 60
    {[ Some "u1"%string := repeat 100%float 10 ]}.

(** ** Usage statistics (auth.py, [get_usage_statistics]) *)

(** One entry of [stats["plan_breakdown"]]. *)
Record PlanStats : Type := mkPlanStats {
  users : Z;
  plan_notes_used : Z;
  plan_notes_limit : Z
}.

Record UsageStats : Type := mkUsageStats {
  total_users : Z;
  total_notes_used : Z;
  plan_breakdown : list (string * PlanStats)
}.

(** [str.lower()], on ASCII text. *)
Definition lower_ascii (c : Ascii.ascii) : Ascii.ascii :=
  let n := Ascii.nat_of_ascii c in
  if (65 <=? n)%nat && (n <=? 90)%nat then Ascii.ascii_of_nat (n + 32) else c.

Fixpoint lower (s : string) : string :=
  match s with
  | EmptyString => EmptyString
  | String c rest => String (lower_ascii c) (lower rest)
  end.

Definition initial_stats : UsageStats :=
  mkUsageStats 0 0
    [("starter"%string, mkPlanStats 0 0 0);
     ("pro"%string, mkPlanStats 0 0 0);
     ("enterprise"%string, mkPlanStats 0 0 0)].

(** Lines 334-337: the three [+=] on the entry of [plan], when the
    breakdown has one. *)
Fixpoint add_to_plan (plan_name : string) (l : License)
         (breakdown : list (string * PlanStats)) : list (string * PlanStats) :=
  match breakdown with
  | [] => []
  | (k, st) :: rest =>
      if String.eqb k plan_name then
        (k, mkPlanStats (users st + 1)
              (plan_notes_used st + notes_used l)
              (plan_notes_limit st + notes_limit l)) :: rest
      else (k, st) :: add_to_plan plan_name l rest
  end.

(** One turn of the loop at lines 329-337. *)
Definition count_license (stats : UsageStats) (l : License) : UsageStats :=
  mkUsageStats (total_users stats + 1)
    (total_notes_used stats + notes_used l)
    (add_to_plan (lower (plan_type l)) l (plan_breakdown stats)).

Definition get_usage_statistics (db : list License) : UsageStats :=
  fold_left count_license (List.filter active db) initial_stats.

(** [stats["plan_breakdown"][name]]. *)
Fixpoint plan_stats (name : string) (breakdown : list (string * PlanStats))
  : option PlanStats :=
  match breakdown with
  | [] => None
  | (k, st) :: rest =>
      if String.eqb k name then Some st else plan_stats name rest
  end.

(** ** Grouping utterances by speaker (whisper_utils.py, lines 170-184) *)

(** [f"Speaker {utterance.speaker}"]. *)
Definition speaker_label (speaker : Z) : string :=
  String.append "Speaker " (pretty speaker).

(** Lines 175-178: create the speaker's list on first sight, then append. *)
Fixpoint append_utterance (speaker text : string)
         (d : list (string * list string)) : list (string * list string) :=
  match d with
  | [] => [(speaker, [text])]
  | (k, texts) :: rest =>
      if String.eqb k speaker then (k, texts ++ [text]) :: rest
      else (k, texts) :: append_utterance speaker text rest
  end.

(** The dictionary after the loop over the utterances, in insertion
    order. *)
Definition collect_utterances (utterances : list (Z * string))
  : list (string * list string) :=
  fold_left (fun d u => append_utterance (speaker_label (fst u)) (snd u) d)
            utterances [].

(** Lines 181-182: each speaker's utterances joined into a paragraph. *)
Definition transcript_by_speaker (utterances : list (Z * string))
  : list (string * string) :=
  map (fun kv => (fst kv, join " " (snd kv))) (collect_utterances utterances).

(** The texts a speaker uttered, in order. *)
Definition utterances_of (speaker : string) (utterances : list (Z * string))
  : list string :=
  map snd
    (List.filter (fun u => String.eqb (speaker_label (fst u)) speaker)
       utterances).

(** [d[k]] on an insertion-ordered dictionary. *)
Fixpoint dict_lookup {V : Type} (k : string) (d : list (string * V))
  : option V :=
  match d with
  | [] => None
  | (k', v) :: rest => if String.eqb k' k then Some v else dict_lookup k rest
  end.

(** The distinct elements of a list, in order of first occurrence. *)
Fixpoint first_occurrences (seen l : list string) : list string :=
  match l with
  | [] => []
  | x :: rest =>
      if existsb (String.eqb x) seen then first_occurrences seen rest
      else x :: first_occurrences (x :: seen) rest
  end.

(** ** Runs of calls and table invariants used in the statements *)

Section GateRuns.

Variable JWT_SECRET : option string.
Variable JWT_ALGORITHM : string.
Variable jwt_decode :
  string -> option string -> list string -> datetime -> Decoded.
Variable local_utc_offset : Z.

(** One gate call after the other with the same header, at the given
    clock readings. *)
Fixpoint verify_tokens (token : option string) (clocks : list datetime)
         (db : list License) : list (result Payload) * list License :=
  match clocks with
  | [] => ([], db)
  | utcnow :: rest =>
      let (answer, db1) :=
        verify_token JWT_SECRET JWT_ALGORITHM jwt_decode local_utc_offset
          token utcnow db in
      let (answers, db2) := verify_tokens token rest db1 in
      (answer :: answers, db2)
  end.

End GateRuns.

(** The unique columns of the table: the primary key, [user_id] and
    [email]. *)
Definition unique_columns (db : list License) : Prop :=
  NoDup (map lic_id db) /\ NoDup (map user_id db) /\ NoDup (map email db).

(** The limits of all rows are non-negative. *)
Definition limits_nonnegative (db : list License) : Prop :=
  Forall (fun l => 0 <= notes_limit l) db.

(** The window test in exact arithmetic: whether [req_time] lies less
    than [window] seconds before [current_time], the two floats taken at
    their exact values. *)
Definition exact_value (x : float) : option (Z * Z) :=
  match Prim2SF x with
  | S754_zero _ => Some (0, 0)
  | S754_finite negative m e =>
      Some (if negative then Z.neg m else Z.pos m, e)
  | _ => None
  end.

Definition exactly_in_window (current_time req_time : float) (window : Z)
  : bool :=
  match exact_value current_time, exact_value req_time with
  | Some (mc, ec), Some (mr, er) =>
      let e := Z.min ec er in
      let difference := mc * 2 ^ (ec - e) - mr * 2 ^ (er - e) in
      if 0 <=? e then difference * 2 ^ e <? window
      else difference <? window * 2 ^ (- e)
  | _, _ => false
  end.

(** ** Sequences of operations on the application state *)

Inductive Operation : Type :=
| Upsert (uid em plan_ty : string) (limit : Z)
         (customer subscription : string) (utcnow : datetime)
| GateCall (token : option string) (utcnow : datetime)
| SetStatus (subscription : string) (b : bool)
| Reconcile (utcnow : datetime)
| TextNote (text : string) (authorization client_ip : option string)
           (utcnow : datetime) (current_time : float)
| AudioNote (content_type filename : string) (use_diarization : bool)
            (audio_content : list Byte.byte)
            (authorization client_ip : option string)
            (utcnow : datetime) (current_time : float).

(** The data model has [notes_limit >= 0]: an upsert is in its domain
    when the limit it is given is not negative. *)
Definition in_domain (op : Operation) : Prop :=
  match op with
  | Upsert _ _ _ limit _ _ _ => 0 <= limit
  | _ => True
  end.

Section Operations.

Variable JWT_SECRET : option string.
Variable JWT_ALGORITHM : string.
Variable jwt_decode :
  string -> option string -> list string -> datetime -> Decoded.
Variable local_utc_offset : Z.
Variable generate_soap_note : string -> string + string.
Variable transcribe_audio : list Byte.byte -> string -> string + string.
Variable transcribe_audio_with_diarization :
  list Byte.byte -> string -> string + list (string * string).

(** The state an operation leaves. *)
Definition perform (op : Operation) (app : App) : App :=
  match op with
  | Upsert uid em plan_ty limit customer subscription utcnow =>
      mkApp (snd (create_license uid em plan_ty limit customer subscription
                    utcnow (licenses app)))
            (rate_limiter app)
  | GateCall token utcnow =>
      mkApp (snd (verify_token JWT_SECRET JWT_ALGORITHM jwt_decode
                    local_utc_offset token utcnow (licenses app)))
            (rate_limiter app)
  | SetStatus subscription b =>
      mkApp (snd (update_license_status subscription b (licenses app)))
            (rate_limiter app)
  | Reconcile utcnow =>
      mkApp (snd (reset_monthly_usage utcnow (licenses app)))
            (rate_limiter app)
  | TextNote text authorization client_ip utcnow current_time =>
      snd (generate_note_from_text JWT_SECRET JWT_ALGORITHM jwt_decode
             local_utc_offset generate_soap_note
             text authorization client_ip utcnow current_time app)
  | AudioNote content_type filename use_diarization audio_content
              authorization client_ip utcnow current_time =>
      snd (generate_note_from_audio JWT_SECRET JWT_ALGORITHM jwt_decode
             local_utc_offset generate_soap_note transcribe_audio
             transcribe_audio_with_diarization
             content_type filename use_diarization audio_content
             authorization client_ip utcnow current_time app)
  end.

Definition perform_all (ops : list Operation) (app : App) : App :=
  fold_left (fun state op => perform op state) ops app.

End Operations.

(** A note generator that is down. *)
Definition ex_soap_down (text : string) : string + string :=
  inl "upstream timeout"%string.

(** A row whose cycle ended a day before [ex_t0], its quota used up. *)
Definition ex_lapsed : License :=
  mkLicense 1 "u1" "u1@clinic.example" "starter" true 5 5
            (ex_t0 * 1000000 - timedelta_days 31)
            (ex_t0 * 1000000 - timedelta_days 1)
            "cus_1" "sub_1".

(** A limiter keyed by plain strings. *)
Definition ex_string_limiter : RateLimiter string := new_rate_limiter 3 60.

(** The binary64 floats nearest to 0.3 and to 60.3. *)
Definition ex_early : float := 0x1.3333333333333p-2%float.
Definition ex_late : float := 0x1.e266666666666p+5%float.

(** * Properties *)

(** ** Loading and rewriting the first matching row *)

Lemma first_filter_split (c : License -> bool) (f : License -> License)
      (db : list License) (l : License) :
  first (List.filter c db) = Some l ->
  exists before after,
    db = before ++ l :: after /\
    Forall (fun r => c r = false) before /\
    c l = true /\
    update_first c f db = before ++ f l :: after.
Proof.
  induction db as [|r rest IH]; simpl; [discriminate|].
  destruct (c r) eqn:Hc; simpl.
  - intros [= ->]. exists [], rest. repeat split; auto.
  - intros Hfirst. destruct (IH Hfirst) as (before & after & -> & Hb & Hl & Hu).
    exists (r :: before), after. simpl. rewrite Hu. repeat split; auto.
Qed.

Lemma first_filter_none (c : License -> bool) (f : License -> License)
      (db : list License) :
  first (List.filter c db) = None ->
  Forall (fun r => c r = false) db /\ update_first c f db = db.
Proof.
  induction db as [|r rest IH]; simpl; [auto|].
  destruct (c r) eqn:Hc; simpl; [discriminate|].
  intros Hnone. destruct (IH Hnone) as [Hall Hu]. rewrite Hu. auto.
Qed.

Lemma update_first_length c f db : length (update_first c f db) = length db.
Proof.
  induction db as [|r rest IH]; simpl; [reflexivity|].
  destruct (c r); simpl; congruence.
Qed.

Lemma filter_all_false {A} (c : A -> bool) (l : list A) :
  Forall (fun r => c r = false) l -> List.filter c l = [].
Proof.
  induction 1 as [|r rest Hr _ IH]; simpl; [reflexivity|]. now rewrite Hr.
Qed.

(** Rewriting a user's row, keeping its [user_id], leaves the rows of every
    other user alone. *)
Lemma update_first_other_user uid uid' f db :
  uid' <> uid ->
  (forall l, user_id l = uid -> user_id (f l) = uid) ->
  licenses_of uid' (update_first (by_user_id uid) f db) = licenses_of uid' db.
Proof.
  intros Hne Hf. unfold licenses_of.
  induction db as [|r rest IH]; simpl; [reflexivity|].
  destruct (by_user_id uid r) eqn:Hc; simpl.
  - unfold by_user_id in *. apply String.eqb_eq in Hc.
    rewrite (Hf r Hc), Hc.
    destruct (String.eqb_spec uid uid'); [congruence|reflexivity].
  - rewrite IH. reflexivity.
Qed.

(** ** The gate *)

Section GateFacts.

Variable JWT_SECRET : option string.
Variable JWT_ALGORITHM : string.
Variable jwt_decode :
  string -> option string -> list string -> datetime -> Decoded.
Variable local_utc_offset : Z.

Local Abbreviation gate :=
  (verify_token JWT_SECRET JWT_ALGORITHM jwt_decode local_utc_offset).
Local Abbreviation body :=
  (verify_token_body JWT_SECRET JWT_ALGORITHM jwt_decode local_utc_offset).

(** The gate's answer once the token has been decoded and has passed the
    expiry test of line 101: the license checks alone, each refusal
    leaving as the [AttributeError] of the handler. *)
Lemma gate_after_decode raw payload utcnow db :
  raw <> EmptyString ->
  jwt_decode (strip_bearer raw) JWT_SECRET [JWT_ALGORITHM] utcnow
    = DecodeOk payload ->
  (fromtimestamp local_utc_offset (exp payload) <? utcnow) = false ->
  gate (Some raw) utcnow db =
    match first (List.filter (by_user_id (sub payload)) db) with
    | None => (Raise jwt_attribute_error, db)
    | Some license =>
        if negb (active license) then (Raise jwt_attribute_error, db)
        else if notes_used license >=? notes_limit license then
          (Raise jwt_attribute_error, db)
        else
          (Return payload,
           update_first (by_user_id (sub payload))
             (fun l => set_notes_used (notes_used l + 1) l) db)
    end.
Proof.
  intros Hraw Hdec Hexp. unfold verify_token, verify_token_body.
  destruct (String.eqb_spec raw ""); [contradiction|].
  rewrite Hdec, Hexp.
  destruct (first _) as [license|]; [|reflexivity].
  destruct (negb _); [reflexivity|].
  destruct (_ >=? _); reflexivity.
Qed.

(** A request whose token the decoder accepts and which passes the expiry
    test of line 101, for a subject whose license is active and below its
    limit, is granted: the gate returns the decoded payload, and the table
    afterwards is the table before with [notes_used] of that subject's row
    one higher; every other field of that row and every other row is as
    it was. *)
Lemma verify_token_grants raw payload license utcnow db :
  raw <> EmptyString ->
  jwt_decode (strip_bearer raw) JWT_SECRET [JWT_ALGORITHM] utcnow
    = DecodeOk payload ->
  ~ fromtimestamp local_utc_offset (exp payload) < utcnow ->
  first (List.filter (by_user_id (sub payload)) db) = Some license ->
  active license = true ->
  notes_used license < notes_limit license ->
  exists before after,
    db = before ++ license :: after /\
    Forall (fun l => user_id l <> sub payload) before /\
    user_id license = sub payload /\
    gate (Some raw) utcnow db =
      (Return payload,
       before ++
       mkLicense (lic_id license) (user_id license) (email license)
                 (plan_type license) (active license)
                 (notes_limit license) (notes_used license + 1)
                 (created_at license) (expires_at license)
                 (stripe_customer_id license)
                 (stripe_subscription_id license) :: after) /\
    forall uid, uid <> sub payload ->
      licenses_of uid (snd (gate (Some raw) utcnow db)) = licenses_of uid db.
Proof.
  intros Hraw Hdec Hexp Hfirst Hact Hquota.
  assert (Hexp' : (fromtimestamp local_utc_offset (exp payload) <? utcnow)
                  = false) by (apply Z.ltb_ge; lia).
  pose proof (gate_after_decode raw payload utcnow db Hraw Hdec Hexp') as Hg.
  rewrite Hfirst, Hact in Hg. cbn [negb] in Hg.
  assert (Hge : (notes_used license >=? notes_limit license) = false).
  { rewrite Z.geb_leb. apply Z.leb_gt. lia. }
  rewrite Hge in Hg.
  destruct (first_filter_split _
              (fun l => set_notes_used (notes_used l + 1) l) _ _ Hfirst)
    as (before & after & Hdb & Hbefore & Hl & Hupd).
  exists before, after. split; [exact Hdb|]. split.
  { revert Hbefore. apply List.Forall_impl. intros l Hc Heq.
    unfold by_user_id in Hc. rewrite Heq, String.eqb_refl in Hc.
    discriminate. }
  split; [now apply String.eqb_eq in Hl|]. split.
  { rewrite Hg, Hupd. reflexivity. }
  intros uid Hne. rewrite Hg. cbn [snd].
  apply update_first_other_user; auto.
Qed.

(** What the body of the [try] does: it raises without writing, or it has
    found the subject's row active and below its limit and rewrites it. *)
Lemma body_cases token utcnow db :
  (exists e, body token utcnow db = (Raise e, db)) \/
  (exists payload license,
     first (List.filter (by_user_id (sub payload)) db) = Some license /\
     active license = true /\
     notes_used license < notes_limit license /\
     body token utcnow db =
       (Return payload,
        update_first (by_user_id (sub payload))
          (fun l => set_notes_used (notes_used l + 1) l) db)).
Proof.
  unfold verify_token_body.
  destruct (jwt_decode _ _ _ _) as [payload|]; [|left; eauto].
  destruct (_ <? _); [left; eauto|].
  destruct (first _) as [license|] eqn:Hfirst; [|left; eauto].
  destruct (active license) eqn:Hact; cbn [negb]; [|left; eauto].
  rewrite Z.geb_leb.
  destruct (Z.leb_spec (notes_limit license) (notes_used license));
    [left; eauto|].
  right. exists payload, license. auto.
Qed.

(** The same for the gate: a refusal is the missing-token error of line
    86 or the [AttributeError] of the handler. *)
Lemma gate_cases token utcnow db :
  (exists e, gate token utcnow db = (Raise e, db) /\
             (e = missing_token \/ e = jwt_attribute_error)) \/
  (exists payload license,
     first (List.filter (by_user_id (sub payload)) db) = Some license /\
     active license = true /\
     notes_used license < notes_limit license /\
     gate token utcnow db =
       (Return payload,
        update_first (by_user_id (sub payload))
          (fun l => set_notes_used (notes_used l + 1) l) db)).
Proof.
  unfold verify_token.
  destruct token as [raw|]; [|left; eauto].
  destruct (String.eqb raw ""); [left; eauto|].
  destruct (body_cases (strip_bearer raw) utcnow db)
    as [[e He]|(payload & license & Hfirst & Hact & Hlt & Hb)].
  - rewrite He. left. eauto.
  - rewrite Hb. right. exists payload, license. auto.
Qed.

(** What a granted call has checked and written. *)
Lemma gate_grant_inv token utcnow db payload db' :
  gate token utcnow db = (Return payload, db') ->
  exists license,
    first (List.filter (by_user_id (sub payload)) db) = Some license /\
    active license = true /\
    notes_used license < notes_limit license /\
    db' = update_first (by_user_id (sub payload))
            (fun l => set_notes_used (notes_used l + 1) l) db.
Proof.
  intros Hrun.
  destruct (gate_cases token utcnow db)
    as [(e & He & _)|(p & license & Hfirst & Hact & Hlt & Hg)].
  - rewrite Hrun in He. discriminate.
  - rewrite Hrun in Hg. injection Hg as -> ->. eauto.
Qed.

(** What a refused call raises, and that it has not written. *)
Lemma gate_raise_inv token utcnow db e db' :
  gate token utcnow db = (Raise e, db') ->
  (e = missing_token \/ e = jwt_attribute_error) /\ db' = db.
Proof.
  intros Hrun.
  destruct (gate_cases token utcnow db)
    as [(e0 & He & Hkind)|(p & license & _ & _ & _ & Hg)].
  - rewrite Hrun in He. injection He as -> ->. auto.
  - rewrite Hrun in Hg. discriminate.
Qed.

(** C10. Whatever the gate raises, it raises without having written:
    the table after a failing call is the table before it. *)
Theorem verify_token_failure_reads_only token utcnow db e db' :
  verify_token JWT_SECRET JWT_ALGORITHM jwt_decode local_utc_offset
    token utcnow db = (Raise e, db') ->
  db' = db.
Proof.
  unfold verify_token.
  destruct token as [raw|]; [|now intros [= _ <-]].
  destruct (String.eqb raw ""); [now intros [= _ <-]|].
  destruct (body_cases (strip_bearer raw) utcnow db)
    as [[e0 He]|(payload & license & _ & _ & _ & Hb)].
  - rewrite He. now intros [= _ <-].
  - rewrite Hb. discriminate.
Qed.

End GateFacts.

Lemma verify_token_failure_reads_only_witness :
  ex_gate (Some "Bearer jwt.u1"%string) (ex_t0 * 1000000 + 5)
          [ex_license 5 5] =
    (Raise jwt_attribute_error, [ex_license 5 5]) /\
  [ex_license 5 5] = [ex_license 5 5].
Proof.
  split; [reflexivity|].
  apply (verify_token_failure_reads_only ex_secret ex_alg ex_decode 0
           (Some "Bearer jwt.u1"%string) (ex_t0 * 1000000 + 5)
           [ex_license 5 5] jwt_attribute_error).
  reflexivity.
Defined.

(** C1. The claim fails on a server whose local time is behind UTC. The
    server of the example is five hours west; the token is signed, known
    to the decoder and 3595 seconds from its expiry; its subject's license
    is active with 2 of 5 notes used. Line 101 compares the expiry, read
    in local time, with the clock in UTC: the body of the [try] raises
    the expired-token error, the gate fails and [notes_used] stays 2. The
    same request on a server on UTC is granted and charged one note. *)
Theorem unexpired_token_refused_west_of_utc :
  let utcnow := (ex_t0 + 5) * 1000000 in
  let db := [ex_license 5 2] in
  ex_decode (strip_bearer "Bearer jwt.u1") ex_secret [ex_alg] utcnow
    = DecodeOk ex_payload /\
  utcnow + 3595 * 1000000 = exp ex_payload * 1000000 /\
  first (List.filter (by_user_id (sub ex_payload)) db)
    = Some (ex_license 5 2) /\
  active (ex_license 5 2) = true /\
  notes_used (ex_license 5 2) < notes_limit (ex_license 5 2) /\
  verify_token_body ex_secret ex_alg ex_decode ex_west
    (strip_bearer "Bearer jwt.u1") utcnow db = (Raise token_expired, db) /\
  verify_token ex_secret ex_alg ex_decode ex_west
    (Some "Bearer jwt.u1"%string) utcnow db
    = (Raise jwt_attribute_error, db) /\
  verify_token ex_secret ex_alg ex_decode 0
    (Some "Bearer jwt.u1"%string) utcnow db
    = (Return ex_payload, [ex_license 5 3]).
Proof.
  cbv zeta. repeat split; vm_compute; reflexivity.
Qed.

(** C2. Of the six kinds of failure only the missing token leaves the
    gate as the taxonomy prescribes. In each of the other five the body
    of the [try] raises (the decoder's error for a token that is not
    valid or is past its expiry, and for the three license failures the
    HTTP error the taxonomy asks for), the handler of line 143 is
    reached, and what leaves the gate is the [AttributeError] of its
    class expression, which is none of the taxonomy's errors. *)
Theorem gate_failures_leave_as_attribute_error :
  let gate := verify_token ex_secret ex_alg ex_decode 0 in
  let body := verify_token_body ex_secret ex_alg ex_decode 0 in
  let utcnow := ex_t0 * 1000000 + 5 in
  let expired := (ex_t0 + 3600) * 1000000 + 1 in
  let inactive := set_active false (ex_license 5 2) in
  gate None utcnow [ex_license 5 2]
    = (Raise (taxonomy_error MissingToken), [ex_license 5 2]) /\
  gate (Some ""%string) utcnow [ex_license 5 2]
    = (Raise (taxonomy_error MissingToken), [ex_license 5 2]) /\
  (body "not.a.token"%string utcnow [ex_license 5 2]
     = (Raise InvalidTokenError, [ex_license 5 2]) /\
   gate (Some "Bearer not.a.token"%string) utcnow [ex_license 5 2]
     = (Raise jwt_attribute_error, [ex_license 5 2])) /\
  (body "jwt.u1"%string expired [ex_license 5 2]
     = (Raise InvalidTokenError, [ex_license 5 2]) /\
   gate (Some "Bearer jwt.u1"%string) expired [ex_license 5 2]
     = (Raise jwt_attribute_error, [ex_license 5 2])) /\
  (body "jwt.u1"%string utcnow [ex_other]
     = (Raise (taxonomy_error NoLicense), [ex_other]) /\
   gate (Some "Bearer jwt.u1"%string) utcnow [ex_other]
     = (Raise jwt_attribute_error, [ex_other])) /\
  (body "jwt.u1"%string utcnow [inactive]
     = (Raise (taxonomy_error InactiveSubscription), [inactive]) /\
   gate (Some "Bearer jwt.u1"%string) utcnow [inactive]
     = (Raise jwt_attribute_error, [inactive])) /\
  (body "jwt.u1"%string utcnow [ex_license 5 5]
     = (Raise (taxonomy_error QuotaExhausted), [ex_license 5 5]) /\
   gate (Some "Bearer jwt.u1"%string) utcnow [ex_license 5 5]
     = (Raise jwt_attribute_error, [ex_license 5 5])) /\
  (forall f, jwt_attribute_error <> taxonomy_error f).
Proof.
  cbv zeta. repeat split; try (vm_compute; reflexivity).
  intros f. discriminate.
Qed.

(** ** Issuing a token and presenting it to the gate *)

Section TokenFacts.

Variable JWT_SECRET : option string.
Variable JWT_ALGORITHM : string.
Variable JWT_EXPIRATION_MINUTES : Z.
Variable jwt_encode : Claims -> option string -> string -> string.
Variable jwt_decode :
  string -> option string -> list string -> datetime -> Decoded.
Variable local_utc_offset : Z.

Local Abbreviation gate :=
  (verify_token JWT_SECRET JWT_ALGORITHM jwt_decode local_utc_offset).
Local Abbreviation issue :=
  (create_token JWT_SECRET JWT_ALGORITHM JWT_EXPIRATION_MINUTES jwt_encode).
Local Abbreviation payload_of :=
  (issued_payload JWT_EXPIRATION_MINUTES).


End TokenFacts.



(** ** The license store *)

Lemma licenses_of_app uid db1 db2 :
  licenses_of uid (db1 ++ db2) = licenses_of uid db1 ++ licenses_of uid db2.
Proof. unfold licenses_of. apply List.filter_app. Qed.

(** With [user_id] unique, the row a lookup loads is the user's only row,
    and rewriting it (keeping its [user_id]) keeps it the only one. *)
Lemma unique_row_rewritten uid (f : License -> License) db existing :
  unique_user_ids db ->
  first (licenses_of uid db) = Some existing ->
  user_id (f existing) = uid ->
  licenses_of uid db = [existing] /\
  licenses_of uid (update_first (by_user_id uid) f db) = [f existing].
Proof.
  intros Huniq Hfirst Hf.
  destruct (first_filter_split _ f _ _ Hfirst)
    as (before & after & Hdb & Hbefore & Hl & Hupd).
  pose proof (Huniq uid) as Hlen.
  rewrite Hupd. rewrite Hdb in Hlen |- *.
  rewrite !licenses_of_app in *. unfold licenses_of in *. simpl in *.
  rewrite Hl in *. rewrite (filter_all_false _ _ Hbefore) in *.
  unfold by_user_id at 2. rewrite Hf, String.eqb_refl. simpl in *.
  destruct (List.filter (by_user_id uid) after); simpl in *; [auto|lia].
Qed.

(** The outcome of [create_license] when the insert is not refused. *)
Lemma create_license_ok uid em plan_ty limit customer subscription utcnow db :
  unique_user_ids db ->
  licenses_of uid db <> [] \/ existsb (by_email em) db = false ->
  exists lic db',
    create_license uid em plan_ty limit customer subscription utcnow db
      = (Return lic, db') /\
    licenses_of uid db' = [lic] /\
    (user_id lic = uid /\ plan_type lic = plan_ty /\ active lic = true /\
     notes_limit lic = limit /\ notes_used lic = 0 /\
     expires_at lic = utcnow + timedelta_days 30 /\
     stripe_customer_id lic = customer /\
     stripe_subscription_id lic = subscription) /\
    (licenses_of uid db <> [] -> length db' = length db) /\
    (forall uid', uid' <> uid -> licenses_of uid' db' = licenses_of uid' db) /\
    unique_user_ids db'.
Proof.
  intros Huniq Hcase. unfold create_license.
  fold (licenses_of uid db).
  destruct (first (licenses_of uid db)) as [existing|] eqn:Hfirst.
  - assert (Huid : user_id existing = uid).
    { destruct (first_filter_split _ (fun l => l) _ _ Hfirst)
        as (_ & _ & _ & _ & Hl & _). now apply String.eqb_eq in Hl. }
    set (updated := mkLicense _ _ _ _ _ _ _ _ _ _ _).
    destruct (unique_row_rewritten uid (fun _ => updated) db existing
                Huniq Hfirst Huid) as [_ Hone].
    exists updated, (update_first (by_user_id uid) (fun _ => updated) db).
    split; [reflexivity|]. split; [exact Hone|].
    split; [subst updated; simpl; tauto|].
    split; [intros _; apply update_first_length|].
    assert (Hother : forall uid', uid' <> uid ->
              licenses_of uid'
                (update_first (by_user_id uid) (fun _ => updated) db)
              = licenses_of uid' db).
    { intros uid' Hne. apply update_first_other_user; [exact Hne|].
      intros _ _. exact Huid. }
    split; [exact Hother|].
    intros uid'. destruct (String.eqb_spec uid' uid) as [->|Hne].
    + rewrite Hone. simpl. lia.
    + rewrite Hother by exact Hne. apply Huniq.
  - assert (Hnone : licenses_of uid db = []).
    { unfold first in Hfirst. destruct (licenses_of uid db); [auto|discriminate]. }
    destruct Hcase as [Hsome|Hfree]; [contradiction|]. rewrite Hfree.
    set (new_license := mkLicense _ _ _ _ _ _ _ _ _ _ _).
    exists new_license, (db ++ [new_license]).
    split; [reflexivity|].
    assert (Hnew : licenses_of uid [new_license] = [new_license]).
    { unfold licenses_of, by_user_id. simpl. now rewrite String.eqb_refl. }
    split; [rewrite licenses_of_app, Hnone, Hnew; reflexivity|].
    split; [subst new_license; simpl; tauto|].
    split; [intros Hsome; contradiction|].
    assert (Hother : forall uid', uid' <> uid ->
              licenses_of uid' (db ++ [new_license]) = licenses_of uid' db).
    { intros uid' Hne. rewrite licenses_of_app.
      unfold licenses_of at 2. unfold by_user_id. simpl.
      destruct (String.eqb_spec uid uid'); [congruence|].
      apply app_nil_r. }
    split; [exact Hother|].
    intros uid'. destruct (String.eqb_spec uid' uid) as [->|Hne].
    + rewrite licenses_of_app, Hnone, Hnew. simpl. lia.
    + rewrite Hother by auto. apply Huniq.
Qed.

(** C6, as amended. With [user_id] unique in the table, a call of
    [create_license] for a user who already has a row, or with an email no
    row holds, leaves exactly one row for that user: the row carries the
    call's plan, limit and payment ids, is active, has [notes_used = 0] and
    expires thirty days after the call; an existing row is rewritten in
    place (the table keeps its length) and the rows of other users are
    untouched. A second call for the same user, with any other values,
    again leaves exactly one row, in the same table length, carrying the
    second call's values and [notes_used = 0]. *)
Theorem create_license_upserts
        uid em plan_ty limit customer subscription utcnow db :
  unique_user_ids db ->
  licenses_of uid db <> [] \/ existsb (by_email em) db = false ->
  exists lic db',
    create_license uid em plan_ty limit customer subscription utcnow db
      = (Return lic, db') /\
    licenses_of uid db' = [lic] /\
    (user_id lic = uid /\ plan_type lic = plan_ty /\ active lic = true /\
     notes_limit lic = limit /\ notes_used lic = 0 /\
     expires_at lic = utcnow + timedelta_days 30 /\
     stripe_customer_id lic = customer /\
     stripe_subscription_id lic = subscription) /\
    (licenses_of uid db <> [] -> length db' = length db) /\
    (forall uid', uid' <> uid -> licenses_of uid' db' = licenses_of uid' db) /\
    forall em2 plan2 limit2 customer2 subscription2 utcnow2,
    exists lic2 db'',
      create_license uid em2 plan2 limit2 customer2 subscription2 utcnow2 db'
        = (Return lic2, db'') /\
      licenses_of uid db'' = [lic2] /\
      length db'' = length db' /\
      (user_id lic2 = uid /\ plan_type lic2 = plan2 /\ active lic2 = true /\
       notes_limit lic2 = limit2 /\ notes_used lic2 = 0 /\
       expires_at lic2 = utcnow2 + timedelta_days 30 /\
       stripe_customer_id lic2 = customer2 /\
       stripe_subscription_id lic2 = subscription2).
Proof.
  intros Huniq Hcase.
  destruct (create_license_ok uid em plan_ty limit customer subscription
              utcnow db Huniq Hcase)
    as (lic & db' & Hrun & Hone & Hfields & Hlen & Hother & Huniq').
  exists lic, db'. repeat (split; [assumption|]).
  intros em2 plan2 limit2 customer2 subscription2 utcnow2.
  assert (Hsome : licenses_of uid db' <> []) by (rewrite Hone; discriminate).
  destruct (create_license_ok uid em2 plan2 limit2 customer2 subscription2
              utcnow2 db' Huniq' (or_introl Hsome))
    as (lic2 & db'' & Hrun2 & Hone2 & Hfields2 & Hlen2 & _ & _).
  exists lic2, db''. auto.
Qed.

Lemma create_license_upserts_witness :
  exists lic db',
    create_license "u1" "new@clinic.example" "pro" 50 "cus_9" "sub_9"
                   (ex_t0 * 1000000) [ex_license 5 4; ex_other]
      = (Return lic, db') /\
    licenses_of "u1" db' = [lic] /\
    notes_used lic = 0 /\ notes_limit lic = 50 /\ length db' = 2%nat.
Proof.
  destruct (create_license_upserts "u1" "new@clinic.example" "pro" 50
              "cus_9" "sub_9" (ex_t0 * 1000000) [ex_license 5 4; ex_other])
    as (lic & db' & Hrun & Hone & Hfields & Hlen & _).
  - intros uid. unfold licenses_of. cbn [List.filter].
    change (by_user_id uid (ex_license 5 4)) with (String.eqb "u1" uid).
    change (by_user_id uid ex_other) with (String.eqb "u2" uid).
    destruct (String.eqb_spec "u1" uid) as [<-|_];
      [change (String.eqb "u2" "u1") with false
      |destruct (String.eqb "u2" uid)]; cbn [length]; lia.
  - left. vm_compute. discriminate.
  - exists lic, db'. split; [exact Hrun|]. split; [exact Hone|].
    split; [tauto|]. split; [tauto|].
    rewrite Hlen; [reflexivity|]. vm_compute. discriminate.
Defined.

(** C6 as stated fails: a first license for user [u3] under an email that
    the row of [u2] holds is refused by the unique index on [email]; the
    call raises and the table has no row for [u3]. *)
Lemma create_license_email_taken :
  create_license "u3" "u2@clinic.example" "starter" 20 "cus_3" "sub_3"
                 (ex_t0 * 1000000) [ex_other]
    = (Raise (IntegrityError "licenses.email"), [ex_other]) /\
  licenses_of "u3" [ex_other] = [].
Proof. split; reflexivity. Qed.

(** ** The cycle reconciler *)

Lemma reset_license_not_ended utcnow l :
  cycle_ended utcnow (reset_license utcnow l) = false.
Proof.
  unfold cycle_ended, reset_license. simpl.
  destruct (active l); simpl; [|reflexivity].
  apply Z.ltb_ge. unfold timedelta_days. lia.
Qed.

(** C7. Run at [utcnow], [reset_monthly_usage] returns the number of rows
    that are active and whose [expires_at] lies before [utcnow]; each of
    those rows gets [notes_used = 0] and [expires_at] thirty days after
    [utcnow], with every other field kept, and every other row (inactive
    or not yet expired) is left as it was. A second run at the same
    [utcnow] returns 0 and changes nothing. *)
Theorem reset_monthly_usage_reconciles utcnow db :
  fst (reset_monthly_usage utcnow db) =
    Z.of_nat (length (List.filter
                        (fun l => active l && (expires_at l <? utcnow)) db)) /\
  Forall2
    (fun l l' =>
       (active l = true /\ expires_at l < utcnow ->
        l' = mkLicense (lic_id l) (user_id l) (email l) (plan_type l)
                       (active l) (notes_limit l) 0 (created_at l)
                       (utcnow + timedelta_days 30)
                       (stripe_customer_id l) (stripe_subscription_id l)) /\
       (~ (active l = true /\ expires_at l < utcnow) -> l' = l))
    db (snd (reset_monthly_usage utcnow db)) /\
  reset_monthly_usage utcnow (snd (reset_monthly_usage utcnow db)) =
    (0, snd (reset_monthly_usage utcnow db)).
Proof.
  split; [reflexivity|]. split.
  - unfold reset_monthly_usage. cbn [snd].
    induction db as [|l rest IH]; cbn [map]; constructor; [|exact IH].
    unfold cycle_ended, reset_license, set_expires_at, set_notes_used.
    destruct l as [i u e p a lim used c x sc ss]; cbn.
    destruct a; cbn.
    + destruct (Z.ltb_spec x utcnow); split.
      * intros _. reflexivity.
      * intros Hn. exfalso. apply Hn. auto.
      * intros [_ Hlt]. lia.
      * intros _. reflexivity.
    + split; [intros [Hact _]; discriminate|reflexivity].
  - unfold reset_monthly_usage. cbn [snd].
    induction db as [|l rest IH]; simpl; [reflexivity|].
    injection IH as Hcount Hrows.
    destruct (cycle_ended utcnow l) eqn:Hended.
    + rewrite reset_license_not_ended. simpl.
      rewrite Hcount. now rewrite Hrows.
    + rewrite Hended. simpl. rewrite Hcount. now rewrite Hrows.
Qed.


(** ** The rate limiter *)

Section RateLimiterFacts.

Context {K : Type} `{Countable K}.

Lemma requests_of_insert lim win (m : gmap K (list float)) identifier v :
  requests_of (mkRateLimiter lim win (<[identifier := v]> m)) identifier = v.
Proof. unfold requests_of. cbn [requests]. now rewrite lookup_insert_eq. Qed.

Lemma requests_of_new lim win (identifier : K) :
  requests_of (new_rate_limiter lim win) identifier = [].
Proof. unfold requests_of, new_rate_limiter. cbn [requests]. now rewrite lookup_empty. Qed.

(** One call, given the identifier's stored timestamps and the ones
    among them that pass the window test. *)
Lemma allow_request_on lim win (m : gmap K (list float)) identifier t
      stored kept :
  requests_of (mkRateLimiter lim win m) identifier = stored ->
  List.filter (fun r => float_lt_int (PrimFloat.sub t r) win) stored = kept ->
  allow_request (mkRateLimiter lim win m) identifier t =
    if Z.of_nat (length kept) <? lim
    then (true, mkRateLimiter lim win (<[identifier := kept ++ [t]]> m))
    else (false, mkRateLimiter lim win (<[identifier := kept]> m)).
Proof. intros <- <-. reflexivity. Qed.


End RateLimiterFacts.



(** ** The endpoints *)

Lemma first_after_update uid (f : License -> License) db license :
  first (licenses_of uid db) = Some license ->
  user_id (f license) = user_id license ->
  first (licenses_of uid (update_first (by_user_id uid) f db))
    = Some (f license).
Proof.
  intros Hfirst Hf.
  destruct (first_filter_split _ f _ _ Hfirst)
    as (before & after & _ & Hbefore & Hl & ->).
  rewrite licenses_of_app. unfold licenses_of.
  rewrite (filter_all_false _ _ Hbefore). simpl.
  unfold by_user_id in *. rewrite Hf, Hl. reflexivity.
Qed.

(** The gate keeps every row within its quota: its increment is guarded
    by the comparison of [notes_used] with [notes_limit]. *)
Lemma verify_token_keeps_quota secret alg decode offset token utcnow db :
  within_quota db ->
  within_quota (snd (verify_token secret alg decode offset token utcnow db)).
Proof.
  intros Hq.
  destruct (gate_cases secret alg decode offset token utcnow db)
    as [(e & -> & _)|(payload & license & Hfirst & _ & Hlt & ->)];
    cbn [snd].
  - exact Hq.
  - destruct (first_filter_split _
                (fun l => set_notes_used (notes_used l + 1) l) _ _ Hfirst)
      as (before & after & Hdb & _ & _ & ->).
    unfold within_quota in *. rewrite Hdb in Hq.
    apply List.Forall_app in Hq as [Hb Ha].
    apply List.Forall_app. split; [exact Hb|].
    inversion Ha; subst. constructor; [simpl; lia|assumption].
Qed.

Section MainFacts.

Variable JWT_SECRET : option string.
Variable JWT_ALGORITHM : string.
Variable jwt_decode :
  string -> option string -> list string -> datetime -> Decoded.
Variable local_utc_offset : Z.
Variable generate_soap_note : string -> string + string.
Variable transcribe_audio : list Byte.byte -> string -> string + string.
Variable transcribe_audio_with_diarization :
  list Byte.byte -> string -> string + list (string * string).

Local Abbreviation gate :=
  (verify_token JWT_SECRET JWT_ALGORITHM jwt_decode local_utc_offset).
Local Abbreviation text_endpoint :=
  (generate_note_from_text JWT_SECRET JWT_ALGORITHM jwt_decode
     local_utc_offset generate_soap_note).
Local Abbreviation audio_endpoint :=
  (generate_note_from_audio JWT_SECRET JWT_ALGORITHM jwt_decode
     local_utc_offset generate_soap_note transcribe_audio
     transcribe_audio_with_diarization).

(** The gate never raises the limiter's error. *)
Lemma gate_never_rate_limits token utcnow db db' :
  gate token utcnow db <> (Raise rate_limit_exceeded, db').
Proof.
  intros Hrun.
  destruct (gate_raise_inv _ _ _ _ _ _ _ _ _ Hrun) as [[He|He] _];
    discriminate He.
Qed.

(** A granted gate call has charged one note. *)
Lemma gate_grant_charges token utcnow db payload db' :
  gate token utcnow db = (Return payload, db') ->
  charged_once (sub payload) db db'.
Proof.
  intros Hrun.
  destruct (gate_grant_inv _ _ _ _ _ _ _ _ _ Hrun)
    as (license & Hfirst & _ & Hlt & ->).
  exists license. split; [exact Hfirst|]. split; [exact Hlt|].
  split; [reflexivity|].
  now apply (first_after_update _
               (fun l => set_notes_used (notes_used l + 1) l)).
Qed.

(** C4, as amended. A request that either note-generation endpoint
    answers with the rate-limit error has passed the gate before the
    limiter was asked: the gate granted it, the limiter then denied the
    identifier, and the table the request leaves behind is the table
    before with one note charged to the token's subject. *)
Theorem rate_limited_request_is_charged
        text content_type filename use_diarization audio_content
        authorization client_ip utcnow current_time app app' :
  text_endpoint text authorization client_ip utcnow current_time app
    = (Raise rate_limit_exceeded, app') \/
  audio_endpoint content_type filename use_diarization audio_content
    authorization client_ip utcnow current_time app
    = (Raise rate_limit_exceeded, app') ->
  exists token_data,
    gate authorization utcnow (licenses app)
      = (Return token_data, licenses app') /\
    fst (allow_request (rate_limiter app)
           (str_or (sub token_data) client_ip) current_time) = false /\
    charged_once (sub token_data) (licenses app) (licenses app').
Proof.
  intros [Hrun|Hrun].
  - unfold generate_note_from_text in Hrun.
    destruct (gate authorization utcnow (licenses app))
      as [[token_data|e] db] eqn:Hgate.
    + destruct (allow_request _ _ _) as [allowed rl] eqn:Hallow.
      destruct allowed; cbn [negb] in Hrun.
      * destruct (generate_soap_note text); discriminate Hrun.
      * injection Hrun as <-. exists token_data. cbn [licenses].
        split; [reflexivity|]. split; [now rewrite Hallow|].
        now apply (gate_grant_charges _ _ _ _ _ Hgate).
    + injection Hrun as -> _.
      now apply gate_never_rate_limits in Hgate.
  - unfold generate_note_from_audio in Hrun.
    destruct (gate authorization utcnow (licenses app))
      as [[token_data|e] db] eqn:Hgate.
    + destruct (allow_request _ _ _) as [allowed rl] eqn:Hallow.
      destruct allowed; cbn [negb] in Hrun.
      * destruct (negb _); [discriminate Hrun|].
        destruct (process_audio _ _ _ _ _ _ _ _ _)
          as [[msg|note] db2]; discriminate Hrun.
      * injection Hrun as <-. exists token_data. cbn [licenses].
        split; [reflexivity|]. split; [now rewrite Hallow|].
        now apply (gate_grant_charges _ _ _ _ _ Hgate).
    + injection Hrun as -> _.
      now apply gate_never_rate_limits in Hgate.
Qed.

End MainFacts.

Lemma rate_limited_request_is_charged_witness :
  exists token_data,
    ex_gate (Some "Bearer jwt.u1"%string) (ex_t0 * 1000000 + 5)
            [ex_license 5 2]
      = (Return token_data, [ex_license 5 3]) /\
    fst (allow_request ex_full_limiter (str_or (sub token_data) None)
           101%float) = false /\
    charged_once (sub token_data) [ex_license 5 2] [ex_license 5 3].
Proof.
  apply (rate_limited_request_is_charged ex_secret ex_alg ex_decode 0
           ex_soap ex_transcribe ex_diarize
           "tooth 14 sensitive" "audio/wav" "visit.wav" false []
           (Some "Bearer jwt.u1"%string) None
           (ex_t0 * 1000000 + 5) 101%float
           (mkApp [ex_license 5 2] ex_full_limiter)
           (mkApp [ex_license 5 3]
              (snd (allow_request ex_full_limiter (Some "u1"%string)
                      101%float)))).
  left. vm_compute. reflexivity.
Defined.

(** C4 as stated fails: with ten requests of [u1] in the last minute, an
    eleventh is answered with the rate-limit error by either endpoint, and
    [notes_used] of [u1] has gone from 2 to 3. *)
Lemma rate_limited_request_consumes_quota :
  map notes_used (licenses_of "u1" [ex_license 5 2]) = [2] /\
  (fst (generate_note_from_text ex_secret ex_alg ex_decode 0 ex_soap
          "tooth 14 sensitive" (Some "Bearer jwt.u1"%string) None
          (ex_t0 * 1000000 + 5) 101%float
          (mkApp [ex_license 5 2] ex_full_limiter))
     = Raise rate_limit_exceeded /\
   map notes_used
     (licenses_of "u1"
        (licenses
           (snd (generate_note_from_text ex_secret ex_alg ex_decode 0 ex_soap
                   "tooth 14 sensitive" (Some "Bearer jwt.u1"%string) None
                   (ex_t0 * 1000000 + 5) 101%float
                   (mkApp [ex_license 5 2] ex_full_limiter))))) = [3]) /\
  (fst (generate_note_from_audio ex_secret ex_alg ex_decode 0 ex_soap
          ex_transcribe ex_diarize
          "audio/wav" "visit.wav" false []
          (Some "Bearer jwt.u1"%string) None
          (ex_t0 * 1000000 + 5) 101%float
          (mkApp [ex_license 5 2] ex_full_limiter))
     = Raise rate_limit_exceeded /\
   map notes_used
     (licenses_of "u1"
        (licenses
           (snd (generate_note_from_audio ex_secret ex_alg ex_decode 0 ex_soap
                   ex_transcribe ex_diarize
                   "audio/wav" "visit.wav" false []
                   (Some "Bearer jwt.u1"%string) None
                   (ex_t0 * 1000000 + 5) 101%float
                   (mkApp [ex_license 5 2] ex_full_limiter))))) = [3]).
Proof. vm_compute. repeat split; reflexivity. Qed.


(** * Further properties of the gate *)

Lemma substring_whole (s : string) : substring 0 (String.length s) s = s.
Proof. induction s as [|c s IH]; simpl; [reflexivity|now rewrite IH]. Qed.

Lemma strip_bearer_prefixed (s : string) :
  strip_bearer (String.append "Bearer " s) = s.
Proof.
  unfold strip_bearer.
  assert (Hp : String.prefix "Bearer " (String.append "Bearer " s) = true)
    by (destruct s; reflexivity).
  rewrite Hp.
  change (String.length (String.append "Bearer " s))
    with (7 + String.length s)%nat.
  replace (7 + String.length s - 7)%nat with (String.length s) by lia.
  change (substring 7 (String.length s) (String.append "Bearer " s))
    with (substring 0 (String.length s) s).
  apply substring_whole.
Qed.

Section GateMoreFacts.

Variable JWT_SECRET : option string.
Variable JWT_ALGORITHM : string.
Variable jwt_decode :
  string -> option string -> list string -> datetime -> Decoded.
Variable local_utc_offset : Z.

Local Abbreviation gate :=
  (verify_token JWT_SECRET JWT_ALGORITHM jwt_decode local_utc_offset).
Local Abbreviation gates :=
  (verify_tokens JWT_SECRET JWT_ALGORITHM jwt_decode local_utc_offset).

(** X1. The [Bearer ] scheme prefix is optional: a non-empty token that
    does not itself begin with [Bearer ] gets the same answer, and leaves
    the same table, with the prefix as without it. *)
Theorem bearer_prefix_is_optional tok utcnow db :
  tok <> EmptyString ->
  String.prefix "Bearer " tok = false ->
  verify_token JWT_SECRET JWT_ALGORITHM jwt_decode local_utc_offset
    (Some (String.append "Bearer " tok)) utcnow db =
  verify_token JWT_SECRET JWT_ALGORITHM jwt_decode local_utc_offset
    (Some tok) utcnow db.
Proof.
  intros Hne Hplain. unfold verify_token.
  rewrite strip_bearer_prefixed.
  assert (Hsame : strip_bearer tok = tok)
    by (unfold strip_bearer; now rewrite Hplain).
  rewrite Hsame.
  destruct (String.eqb_spec tok ""); [contradiction|].
  reflexivity.
Qed.

End GateMoreFacts.

(** ** Rewriting the same row more than once *)

Lemma update_first_ext c (f g : License -> License) db :
  (forall l, f l = g l) -> update_first c f db = update_first c g db.
Proof.
  intros Hfg. induction db as [|r rest IH]; simpl; [reflexivity|].
  destruct (c r); [now rewrite Hfg|now rewrite IH].
Qed.

Lemma update_first_id c (f : License -> License) db :
  (forall l, f l = l) -> update_first c f db = db.
Proof.
  intros Hf. induction db as [|r rest IH]; simpl; [reflexivity|].
  destruct (c r); [now rewrite Hf|now rewrite IH].
Qed.

Lemma update_first_twice c (f g : License -> License) db :
  (forall l, c l = true -> c (f l) = true) ->
  update_first c g (update_first c f db) =
  update_first c (fun l => g (f l)) db.
Proof.
  intros Hc. induction db as [|r rest IH]; simpl; [reflexivity|].
  destruct (c r) eqn:Hr; simpl.
  - now rewrite (Hc r Hr).
  - now rewrite Hr, IH.
Qed.

Lemma set_notes_used_same (l : License) (v : Z) :
  v = notes_used l -> set_notes_used v l = l.
Proof. intros ->. now destruct l. Qed.

Section GateRunFacts.

Variable JWT_SECRET : option string.
Variable JWT_ALGORITHM : string.
Variable jwt_decode :
  string -> option string -> list string -> datetime -> Decoded.
Variable local_utc_offset : Z.

Local Abbreviation gate :=
  (verify_token JWT_SECRET JWT_ALGORITHM jwt_decode local_utc_offset).

(** X2. On a server whose local time is not behind UTC, calls made one
    after the other with the same token, which the decoder accepts and
    which is not past its expiry, spend exactly the remaining quota: with
    [k] notes left on the subject's active license, the first [k] calls
    are granted, every later call fails, and the table ends with
    [notes_used] raised by the number of grants, which is never beyond
    [notes_limit]. The failing calls do not carry the quota reason: what
    leaves the gate is the [AttributeError] of the handler at line 143. *)
Theorem sequential_calls_spend_the_quota raw payload license clocks db :
  raw <> EmptyString ->
  0 <= local_utc_offset ->
  Forall (fun utcnow =>
            jwt_decode (strip_bearer raw) JWT_SECRET [JWT_ALGORITHM] utcnow
              = DecodeOk payload /\
            utcnow <= exp payload * 1000000) clocks ->
  first (licenses_of (sub payload) db) = Some license ->
  active license = true ->
  notes_used license <= notes_limit license ->
  verify_tokens JWT_SECRET JWT_ALGORITHM jwt_decode local_utc_offset
    (Some raw) clocks db =
    (repeat (Return payload)
       (Nat.min (length clocks)
          (Z.to_nat (notes_limit license - notes_used license))) ++
     repeat (Raise jwt_attribute_error)
       (length clocks -
        Nat.min (length clocks)
          (Z.to_nat (notes_limit license - notes_used license))),
     update_first (by_user_id (sub payload))
       (fun l =>
          set_notes_used
            (notes_used l +
             Z.of_nat
               (Nat.min (length clocks)
                  (Z.to_nat (notes_limit license - notes_used license)))) l)
       db).
Proof.
  intros Hraw Heast Hclocks. revert db license.
  induction Hclocks as [|utcnow rest [Hdec Hexp] _ IH];
    intros db license Hfirst Hact Hle.
  - cbn [verify_tokens length Nat.min repeat app Nat.sub Z.of_nat].
    rewrite update_first_id; [reflexivity|].
    intros l. apply set_notes_used_same. lia.
  - assert (Hexp' : (fromtimestamp local_utc_offset (exp payload) <? utcnow)
                    = false)
      by (apply Z.ltb_ge; unfold fromtimestamp; lia).
    cbn [verify_tokens length].
    rewrite (gate_after_decode _ _ _ _ _ _ _ _ Hraw Hdec Hexp').
    unfold licenses_of in Hfirst. rewrite Hfirst, Hact. cbn [negb].
    rewrite Z.geb_leb.
    destruct (Z.leb_spec (notes_limit license) (notes_used license))
      as [Hfull|Hroom].
    + assert (Hk : Z.to_nat (notes_limit license - notes_used license) = 0%nat)
        by lia.
      rewrite (IH db license Hfirst Hact Hle). rewrite Hk.
      rewrite !Nat.min_0_r. rewrite !Nat.sub_0_r. reflexivity.
    + set (license1 := set_notes_used (notes_used license + 1) license).
      set (db1 := update_first (by_user_id (sub payload))
                    (fun l => set_notes_used (notes_used l + 1) l) db).
      assert (Hfirst1 : first (licenses_of (sub payload) db1) = Some license1).
      { apply (first_after_update _
                 (fun l => set_notes_used (notes_used l + 1) l));
          [exact Hfirst|reflexivity]. }
      rewrite (IH db1 license1 Hfirst1 Hact ltac:(simpl; lia)).
      assert (Hk : Z.to_nat (notes_limit license - notes_used license) =
                   S (Z.to_nat (notes_limit license1 - notes_used license1)))
        by (simpl; lia).
      rewrite Hk. cbn [Nat.min Nat.sub repeat app].
      f_equal. unfold db1.
      rewrite update_first_twice by (intros l Hl; exact Hl).
      apply update_first_ext. intros l.
      unfold set_notes_used. simpl. f_equal. lia.
Qed.

(** X3. The gate never leaves a row over its limit, and neither does a
    run of gate calls: a table within quota is within quota after any
    call, granted or refused. *)
Theorem gate_calls_keep_quota token clocks db :
  within_quota db ->
  within_quota
    (snd (verify_tokens JWT_SECRET JWT_ALGORITHM jwt_decode local_utc_offset
            token clocks db)).
Proof.
  revert db. induction clocks as [|utcnow rest IH]; intros db Hq;
    [exact Hq|].
  cbn [verify_tokens].
  pose proof (verify_token_keeps_quota JWT_SECRET JWT_ALGORITHM jwt_decode
                local_utc_offset token utcnow db Hq) as Hq1.
  destruct (gate token utcnow db) as [answer db1]. cbn [snd] in Hq1.
  specialize (IH db1 Hq1).
  destruct (verify_tokens _ _ _ _ token rest db1) as [answers db2].
  exact IH.
Qed.

End GateRunFacts.

Lemma sequential_calls_spend_the_quota_witness :
  verify_tokens ex_secret ex_alg ex_decode 0 (Some "Bearer jwt.u1"%string)
    [ex_t0 * 1000000 + 1; ex_t0 * 1000000 + 2; ex_t0 * 1000000 + 3]
    [ex_other; ex_license 5 3] =
  ([Return ex_payload; Return ex_payload; Raise jwt_attribute_error],
   [ex_other; ex_license 5 5]).
Proof.
  apply (sequential_calls_spend_the_quota ex_secret ex_alg ex_decode 0
           "Bearer jwt.u1" ex_payload (ex_license 5 3)
           [ex_t0 * 1000000 + 1; ex_t0 * 1000000 + 2; ex_t0 * 1000000 + 3]
           [ex_other; ex_license 5 3]).
  - discriminate.
  - lia.
  - repeat constructor; vm_compute; discriminate.
  - reflexivity.
  - reflexivity.
  - vm_compute. discriminate.
Defined.

Lemma gate_calls_keep_quota_witness :
  within_quota
    (snd (verify_tokens ex_secret ex_alg ex_decode 0
            (Some "Bearer jwt.u1"%string)
            [ex_t0 * 1000000 + 1; ex_t0 * 1000000 + 2]
            [ex_license 5 4])).
Proof.
  apply (gate_calls_keep_quota ex_secret ex_alg ex_decode 0).
  repeat constructor. vm_compute. discriminate.
Defined.


(** * Further properties of the license lifecycle *)

(** A row that is the first match of two queries is still the first match
    of the second after a rewrite through the first. *)
Lemma first_after_update_by c1 c2 (f : License -> License) db l :
  first (List.filter c1 db) = Some l ->
  first (List.filter c2 db) = Some l ->
  c2 (f l) = true ->
  first (List.filter c2 (update_first c1 f db)) = Some (f l).
Proof.
  intros H1 H2 Hf.
  assert (Hc1 : c1 l = true).
  { destruct (first_filter_split _ f _ _ H1) as (_ & _ & _ & _ & Hl & _).
    exact Hl. }
  induction db as [|r rest IH]; simpl in *; [discriminate|].
  destruct (c1 r) eqn:Hr1; simpl in *.
  - injection H1 as ->. now rewrite Hf.
  - destruct (c2 r) eqn:Hr2; simpl in *.
    + injection H2 as ->. congruence.
    + now apply IH.
Qed.

Lemma first_licenses_of_map uid (g : License -> License) db :
  (forall l, user_id (g l) = user_id l) ->
  first (licenses_of uid (map g db)) =
    option_map g (first (licenses_of uid db)).
Proof.
  intros Hg. unfold licenses_of.
  induction db as [|r rest IH]; [reflexivity|].
  cbn [map List.filter].
  assert (Hr : by_user_id uid (g r) = by_user_id uid r)
    by (unfold by_user_id; now rewrite Hg).
  rewrite Hr. destruct (by_user_id uid r); [reflexivity|exact IH].
Qed.

Lemma update_first_map {B} (g : License -> B) c f db :
  (forall l, g (f l) = g l) ->
  map g (update_first c f db) = map g db.
Proof.
  intros Hg. induction db as [|r rest IH]; simpl; [reflexivity|].
  destruct (c r); simpl; [now rewrite Hg|now rewrite IH].
Qed.

Lemma update_first_Forall2 c (f : License -> License) db :
  Forall2 (fun l l' => l' = l \/ (c l = true /\ l' = f l))
          db (update_first c f db).
Proof.
  induction db as [|r rest IH]; simpl; [constructor|].
  destruct (c r) eqn:Hr.
  - constructor; [right; auto|].
    clear. induction rest; constructor; auto.
  - constructor; [left; reflexivity|exact IH].
Qed.

(** X4. [update_license_status] changes nothing but the [active] flag of
    rows carrying the subscription id, it answers [None] exactly when no
    row carries the id, and in that case the table is left as it was. *)
Theorem update_license_status_touches_only_active sid b db :
  Forall2 (fun l l' =>
             l' = l \/
             (stripe_subscription_id l = sid /\
              l' = mkLicense (lic_id l) (user_id l) (email l) (plan_type l)
                     b (notes_limit l) (notes_used l) (created_at l)
                     (expires_at l) (stripe_customer_id l)
                     (stripe_subscription_id l)))
          db (snd (update_license_status sid b db)) /\
  (fst (update_license_status sid b db) = None <->
   Forall (fun l => stripe_subscription_id l <> sid) db) /\
  (fst (update_license_status sid b db) = None ->
   snd (update_license_status sid b db) = db).
Proof.
  unfold update_license_status.
  destruct (first (List.filter (by_subscription sid) db)) as [l|] eqn:Hfirst;
    cbn [fst snd].
  - split; [|split].
    + pose proof (update_first_Forall2 (by_subscription sid) (set_active b) db)
        as Hall.
      eapply Forall2_impl; [exact Hall|].
      intros r r' [->|[Hc ->]]; [now left|].
      right. split; [now apply String.eqb_eq in Hc|reflexivity].
    + split; [discriminate|]. intros Hnone. exfalso.
      destruct (first_filter_split _ (set_active b) _ _ Hfirst)
        as (before & after & -> & _ & Hl & _).
      apply List.Forall_app in Hnone as [_ Hnone].
      inversion Hnone as [|? ? Hne _]; subst.
      apply Hne. now apply String.eqb_eq in Hl.
    + discriminate.
  - destruct (first_filter_none _ (set_active b) _ Hfirst) as [Hall _].
    split; [|split].
    + clear. induction db; constructor; auto.
    + split; [intros _|reflexivity].
      revert Hall. apply List.Forall_impl. intros r Hr Heq.
      unfold by_subscription in Hr. rewrite Heq, String.eqb_refl in Hr.
      discriminate.
    + reflexivity.
Qed.

Section LifecycleAndGate.

Variable JWT_SECRET : option string.
Variable JWT_ALGORITHM : string.
Variable jwt_decode :
  string -> option string -> list string -> datetime -> Decoded.
Variable local_utc_offset : Z.

Local Abbreviation gate :=
  (verify_token JWT_SECRET JWT_ALGORITHM jwt_decode local_utc_offset).

(** X5. The [active] flag set through the subscription id decides access
    on the very next call, for a token that the decoder accepts and that
    passes the expiry test of line 101: once [update_license_status] has
    set the flag to [False], the call fails, whatever quota is left, and
    nothing is charged; once it has set it to [True], a subject below its
    limit is granted and charged one note. The failing call does not
    carry the inactive-license reason: what leaves the gate is the
    [AttributeError] of the handler at line 143. *)
Theorem license_status_decides_access raw payload l sid utcnow db :
  raw <> EmptyString ->
  jwt_decode (strip_bearer raw) JWT_SECRET [JWT_ALGORITHM] utcnow
    = DecodeOk payload ->
  ~ fromtimestamp local_utc_offset (exp payload) < utcnow ->
  first (licenses_of (sub payload) db) = Some l ->
  first (List.filter (by_subscription sid) db) = Some l ->
  verify_token JWT_SECRET JWT_ALGORITHM jwt_decode local_utc_offset
    (Some raw) utcnow (snd (update_license_status sid false db)) =
    (Raise jwt_attribute_error, snd (update_license_status sid false db)) /\
  (notes_used l < notes_limit l ->
   verify_token JWT_SECRET JWT_ALGORITHM jwt_decode local_utc_offset
     (Some raw) utcnow (snd (update_license_status sid true db)) =
     (Return payload,
      update_first (by_user_id (sub payload))
        (fun r => set_notes_used (notes_used r + 1) r)
        (snd (update_license_status sid true db)))).
Proof.
  intros Hraw Hdec Hexp Huser Hsub.
  assert (Hexp' : (fromtimestamp local_utc_offset (exp payload) <? utcnow)
                  = false) by (apply Z.ltb_ge; lia).
  assert (Hmine : by_user_id (sub payload) l = true).
  { destruct (first_filter_split _ (fun r => r) _ _ Huser)
      as (_ & _ & _ & _ & Hl & _). exact Hl. }
  assert (Hrow : forall b,
            first (List.filter (by_user_id (sub payload))
                     (snd (update_license_status sid b db)))
            = Some (set_active b l)).
  { intros b. unfold update_license_status. rewrite Hsub. cbn [snd].
    apply first_after_update_by; [exact Hsub|exact Huser|exact Hmine]. }
  split.
  - rewrite (gate_after_decode _ _ _ _ _ _ _ _ Hraw Hdec Hexp').
    rewrite (Hrow false). reflexivity.
  - intros Hroom.
    rewrite (gate_after_decode _ _ _ _ _ _ _ _ Hraw Hdec Hexp').
    rewrite (Hrow true). cbn [active set_active negb notes_used notes_limit].
    assert (Hge : (notes_used l >=? notes_limit l) = false)
      by (rewrite Z.geb_leb; apply Z.leb_gt; lia).
    now rewrite Hge.
Qed.

(** X6. A user whose cycle has ended is served again after the sweep:
    for an active row whose [expires_at] lies before the sweep's clock
    and whose limit is positive, the gate grants the first call after
    [reset_monthly_usage], whatever [notes_used] was before, and the row
    then shows one note used and the new expiry. *)
Theorem swept_license_is_served raw payload l swept utcnow db :
  raw <> EmptyString ->
  jwt_decode (strip_bearer raw) JWT_SECRET [JWT_ALGORITHM] utcnow
    = DecodeOk payload ->
  ~ fromtimestamp local_utc_offset (exp payload) < utcnow ->
  first (licenses_of (sub payload) db) = Some l ->
  active l = true ->
  expires_at l < swept ->
  0 < notes_limit l ->
  fst (verify_token JWT_SECRET JWT_ALGORITHM jwt_decode local_utc_offset
         (Some raw) utcnow (snd (reset_monthly_usage swept db)))
    = Return payload /\
  first (licenses_of (sub payload)
           (snd (verify_token JWT_SECRET JWT_ALGORITHM jwt_decode
                   local_utc_offset (Some raw) utcnow
                   (snd (reset_monthly_usage swept db)))))
    = Some (mkLicense (lic_id l) (user_id l) (email l) (plan_type l) true
              (notes_limit l) 1 (created_at l) (swept + timedelta_days 30)
              (stripe_customer_id l) (stripe_subscription_id l)).
Proof.
  intros Hraw Hdec Hexp Huser Hact Hdue Hlimit.
  assert (Hexp' : (fromtimestamp local_utc_offset (exp payload) <? utcnow)
                  = false) by (apply Z.ltb_ge; lia).
  set (g := fun r => if cycle_ended swept r then reset_license swept r else r).
  assert (Hg : forall r, user_id (g r) = user_id r).
  { intros r. unfold g. now destruct (cycle_ended swept r). }
  assert (Hrow : first (licenses_of (sub payload)
                          (snd (reset_monthly_usage swept db)))
                 = Some (reset_license swept l)).
  { unfold reset_monthly_usage. cbn [snd]. fold g.
    rewrite (first_licenses_of_map _ g db Hg), Huser. cbn [option_map].
    unfold g, cycle_ended. rewrite Hact.
    assert (Hlt : (expires_at l <? swept) = true) by (apply Z.ltb_lt; lia).
    now rewrite Hlt. }
  rewrite (gate_after_decode _ _ _ _ _ _ _ _ Hraw Hdec Hexp').
  fold (licenses_of (sub payload) (snd (reset_monthly_usage swept db))).
  rewrite Hrow.
  cbn [active reset_license set_expires_at set_notes_used negb
       notes_used notes_limit].
  rewrite Hact. cbn [negb].
  assert (Hge : (0 >=? notes_limit l) = false)
    by (rewrite Z.geb_leb; apply Z.leb_gt; lia).
  rewrite Hge. cbn [fst snd]. split; [reflexivity|].
  rewrite (first_after_update _
             (fun r => set_notes_used (notes_used r + 1) r) _
             (reset_license swept l) Hrow eq_refl).
  unfold reset_license, set_expires_at, set_notes_used. simpl.
  now rewrite Hact.
Qed.

(** X7. A license is usable as soon as [create_license] has written it:
    the subject's next call, with a token that the decoder accepts and
    that passes the expiry test of line 101, is granted when the limit is
    positive, leaving the subject's single row with one note used. When
    the limit is zero or negative the call fails and the table stays as
    [create_license] left it; the failure does not carry the quota
    reason, it is the [AttributeError] of the handler at line 143. *)
Theorem new_license_is_served
        raw payload em plan_ty limit customer subscription created utcnow db :
  unique_user_ids db ->
  licenses_of (sub payload) db <> [] \/ existsb (by_email em) db = false ->
  raw <> EmptyString ->
  jwt_decode (strip_bearer raw) JWT_SECRET [JWT_ALGORITHM] utcnow
    = DecodeOk payload ->
  ~ fromtimestamp local_utc_offset (exp payload) < utcnow ->
  exists lic db',
    create_license (sub payload) em plan_ty limit customer subscription
      created db = (Return lic, db') /\
    (0 < limit ->
     fst (verify_token JWT_SECRET JWT_ALGORITHM jwt_decode local_utc_offset
            (Some raw) utcnow db') = Return payload /\
     licenses_of (sub payload)
       (snd (verify_token JWT_SECRET JWT_ALGORITHM jwt_decode
               local_utc_offset (Some raw) utcnow db'))
       = [set_notes_used 1 lic]) /\
    (limit <= 0 ->
     verify_token JWT_SECRET JWT_ALGORITHM jwt_decode local_utc_offset
       (Some raw) utcnow db' = (Raise jwt_attribute_error, db')).
Proof.
  intros Huniq Hcase Hraw Hdec Hexp.
  assert (Hexp' : (fromtimestamp local_utc_offset (exp payload) <? utcnow)
                  = false) by (apply Z.ltb_ge; lia).
  destruct (create_license_ok (sub payload) em plan_ty limit customer
              subscription created db Huniq Hcase)
    as (lic & db' & Hrun & Hone & Hfields & _ & _ & Huniq').
  destruct Hfields as (Huid & _ & Hact & Hlim & Hused & _).
  exists lic, db'. split; [exact Hrun|].
  assert (Hfirst : first (licenses_of (sub payload) db') = Some lic)
    by (now rewrite Hone).
  pose proof (gate_after_decode JWT_SECRET JWT_ALGORITHM jwt_decode
                local_utc_offset raw payload utcnow db' Hraw Hdec Hexp')
    as Hgate.
  unfold licenses_of in Hfirst. rewrite Hfirst, Hact, Hused, Hlim in Hgate.
  cbn [negb] in Hgate. rewrite Z.geb_leb in Hgate. split.
  - intros Hpos.
    assert (Hleb : (limit <=? 0) = false) by (apply Z.leb_gt; lia).
    rewrite Hleb in Hgate. rewrite Hgate. cbn [fst snd].
    split; [reflexivity|].
    destruct (unique_row_rewritten (sub payload)
                (fun r => set_notes_used (notes_used r + 1) r) db' lic
                Huniq' Hfirst Huid) as [_ Hrow].
    rewrite Hrow, Hused. reflexivity.
  - intros Hnone.
    assert (Hleb : (limit <=? 0) = true) by (apply Z.leb_le; lia).
    now rewrite Hleb in Hgate.
Qed.

End LifecycleAndGate.


(** ** The unique columns *)

Lemma NoDup_snoc {A} (l : list A) (x : A) :
  NoDup l -> ~ In x l -> NoDup (l ++ [x]).
Proof.
  intros Hl Hx. apply NoDup_app. split; [exact Hl|]. split.
  - intros y Hy Hyx. apply list_elem_of_In in Hy.
    apply list_elem_of_In in Hyx. destruct Hyx as [<-|[]]. contradiction.
  - apply NoDup_singleton.
Qed.

Lemma lic_id_below_next db l : In l db -> lic_id l < next_id db.
Proof.
  unfold next_id. induction db as [|r rest IH]; simpl; [tauto|].
  intros [->|Hin]; [lia|]. specialize (IH Hin). lia.
Qed.

Lemma no_license_no_user_id uid db :
  licenses_of uid db = [] -> ~ In uid (map user_id db).
Proof.
  unfold licenses_of. induction db as [|r rest IH]; simpl; [tauto|].
  unfold by_user_id at 1. destruct (String.eqb_spec (user_id r) uid);
    [discriminate|].
  intros Hnone [Heq|Hin]; [contradiction|]. now apply IH.
Qed.

Lemma free_email_not_held em db :
  existsb (by_email em) db = false -> ~ In em (map email db).
Proof.
  induction db as [|r rest IH]; simpl; [tauto|].
  unfold by_email at 1. destruct (String.eqb_spec (email r) em);
    [discriminate|].
  intros Hnone [Heq|Hin]; [contradiction|]. now apply IH.
Qed.

Lemma unique_columns_update_first c f db :
  (forall l, lic_id (f l) = lic_id l) ->
  (forall l, user_id (f l) = user_id l) ->
  (forall l, email (f l) = email l) ->
  unique_columns db -> unique_columns (update_first c f db).
Proof.
  intros Hi Hu He (Hid & Huid & Hem). unfold unique_columns.
  now rewrite !update_first_map.
Qed.

(** X8. Every operation that writes the table keeps its three unique
    columns unique: the gate, [create_license], [update_license_status]
    and [reset_monthly_usage] never produce two rows with the same primary
    key, the same [user_id] or the same [email]. *)
Theorem unique_columns_are_kept
        secret alg decode offset token utcnow
        uid em plan_ty limit customer subscription sid b db :
  unique_columns db ->
  unique_columns (snd (verify_token secret alg decode offset token utcnow db)) /\
  unique_columns
    (snd (create_license uid em plan_ty limit customer subscription
            utcnow db)) /\
  unique_columns (snd (update_license_status sid b db)) /\
  unique_columns (snd (reset_monthly_usage utcnow db)).
Proof.
  intros Hdb. split; [|split; [|split]].
  - destruct (gate_cases secret alg decode offset token utcnow db)
      as [(e & -> & _)|(payload & license & _ & _ & _ & ->)]; cbn [snd].
    + exact Hdb.
    + now apply unique_columns_update_first.
  - unfold create_license.
    destruct (first (List.filter (by_user_id uid) db)) as [existing|]
      eqn:Hfirst.
    + cbn [snd].
      destruct (first_filter_split _
                  (fun _ : License =>
                     mkLicense (lic_id existing) (user_id existing)
                       (email existing) plan_ty true limit 0
                       (created_at existing) (utcnow + timedelta_days 30)
                       customer subscription) _ _ Hfirst)
        as (before & after & Hsplit & _ & _ & ->).
      destruct Hdb as (Hid & Huid & Hem). rewrite Hsplit in Hid, Huid, Hem.
      unfold unique_columns. rewrite !map_app in *. simpl in *. auto.
    + destruct (first_filter_none _ (fun r => r) _ Hfirst) as [Hnone _].
      destruct (existsb (by_email em) db) eqn:Hfree; cbn [snd];
        [exact Hdb|].
      destruct Hdb as (Hid & Huid & Hem). unfold unique_columns.
      rewrite !map_app. simpl. split; [|split].
      * apply NoDup_snoc; [exact Hid|]. intros Hin.
        apply in_map_iff in Hin as (r & Hr & Hin).
        apply lic_id_below_next in Hin. lia.
      * apply NoDup_snoc; [exact Huid|].
        apply no_license_no_user_id. now apply filter_all_false.
      * apply NoDup_snoc; [exact Hem|]. now apply free_email_not_held.
  - unfold update_license_status.
    destruct (first (List.filter (by_subscription sid) db)); cbn [snd];
      [|exact Hdb].
    now apply unique_columns_update_first.
  - unfold reset_monthly_usage. cbn [snd].
    destruct Hdb as (Hid & Huid & Hem). unfold unique_columns.
    rewrite !map_map.
    assert (Hsame : forall {B} (g : License -> B),
              (forall l, g (reset_license utcnow l) = g l) ->
              map (fun l => g (if cycle_ended utcnow l
                               then reset_license utcnow l else l)) db
              = map g db).
    { intros B g Hg. apply map_ext. intros l.
      destruct (cycle_ended utcnow l); [apply Hg|reflexivity]. }
    rewrite !Hsame by reflexivity. auto.
Qed.

(** ** Quota bookkeeping across the lifecycle *)

Lemma Forall_update_first (P : License -> Prop) c f db :
  (forall l, P l -> P (f l)) ->
  Forall P db -> Forall P (update_first c f db).
Proof.
  intros Hf. induction 1 as [|r rest Hr Hrest IH]; simpl; [constructor|].
  destruct (c r); constructor; auto.
Qed.

(** X9. The lifecycle operations keep every row within its quota: on a
    table whose rows have [notes_used <= notes_limit] and non-negative
    limits, [create_license] with a non-negative limit,
    [update_license_status] and [reset_monthly_usage] each leave a table
    with the same two properties. *)
Theorem lifecycle_keeps_quota
        uid em plan_ty limit customer subscription sid b utcnow db :
  within_quota db ->
  limits_nonnegative db ->
  0 <= limit ->
  (within_quota
     (snd (create_license uid em plan_ty limit customer subscription
             utcnow db)) /\
   limits_nonnegative
     (snd (create_license uid em plan_ty limit customer subscription
             utcnow db))) /\
  (within_quota (snd (update_license_status sid b db)) /\
   limits_nonnegative (snd (update_license_status sid b db))) /\
  (within_quota (snd (reset_monthly_usage utcnow db)) /\
   limits_nonnegative (snd (reset_monthly_usage utcnow db))).
Proof.
  unfold within_quota, limits_nonnegative. intros Hq Hl Hlimit.
  split; [|split].
  - unfold create_license.
    destruct (first (List.filter (by_user_id uid) db)) as [existing|];
      cbn [snd].
    + split; apply Forall_update_first; auto; intros; simpl; lia.
    + destruct (existsb (by_email em) db); cbn [snd]; [auto|].
      split; apply List.Forall_app; split; auto;
        repeat constructor; simpl; lia.
  - unfold update_license_status.
    destruct (first (List.filter (by_subscription sid) db)); cbn [snd];
      [|auto].
    split; apply Forall_update_first; auto.
  - unfold reset_monthly_usage. cbn [snd]. split.
    + apply List.Forall_map.
      apply (List.Forall_impl _ (P := fun l => notes_used l <= notes_limit l
                                               /\ 0 <= notes_limit l)).
      * intros l [Hu Hn]. destruct (cycle_ended utcnow l); simpl; lia.
      * apply List.Forall_and; assumption.
    + apply List.Forall_map. revert Hl. apply List.Forall_impl.
      intros l Hn. destruct (cycle_ended utcnow l); simpl; lia.
Qed.

(** X11. The sweep only moves expiry dates forward, and after it no active
    row is past its expiry: every row's [expires_at] is at least what it
    was, and every active row expires at the sweep's clock or later. *)
Theorem reset_monthly_usage_advances utcnow db :
  Forall2 (fun l l' => expires_at l <= expires_at l')
          db (snd (reset_monthly_usage utcnow db)) /\
  Forall (fun l' => active l' = true -> utcnow <= expires_at l')
         (snd (reset_monthly_usage utcnow db)).
Proof.
  unfold reset_monthly_usage. cbn [snd]. split.
  - induction db as [|l rest IH]; cbn [map]; constructor; [|exact IH].
    unfold cycle_ended.
    destruct (active l); cbn [andb]; [|lia].
    destruct (Z.ltb_spec (expires_at l) utcnow); simpl; [|lia].
    unfold timedelta_days. lia.
  - apply List.Forall_map. apply List.Forall_forall. intros l _.
    unfold cycle_ended.
    destruct (active l) eqn:Hact; cbn [andb].
    + destruct (Z.ltb_spec (expires_at l) utcnow); simpl; intros _;
        [unfold timedelta_days|]; lia.
    + rewrite Hact. discriminate.
Qed.


(** * Further properties of the rate limiter *)

Lemma filter_filter_weaker {A} (p q : A -> bool) (l : list A) :
  (forall x, q x = true -> p x = true) ->
  List.filter q (List.filter p l) = List.filter q l.
Proof.
  intros Hqp. induction l as [|x rest IH]; simpl; [reflexivity|].
  destruct (p x) eqn:Hp; simpl.
  - now rewrite IH.
  - destruct (q x) eqn:Hq; [|exact IH].
    apply Hqp in Hq. congruence.
Qed.

Lemma filter_length_le {A} (p : A -> bool) (l : list A) :
  (length (List.filter p l) <= length l)%nat.
Proof.
  induction l as [|x rest IH]; simpl; [lia|]. destruct (p x); simpl; lia.
Qed.

Lemma filter_filter_weaker_in {A} (p q : A -> bool) (l : list A) :
  Forall (fun x => q x = true -> p x = true) l ->
  List.filter q (List.filter p l) = List.filter q l.
Proof.
  induction 1 as [|x rest Hx _ IH]; simpl; [reflexivity|].
  destruct (p x) eqn:Hp; simpl.
  - now rewrite IH.
  - destruct (q x) eqn:Hq; [|exact IH].
    specialize (Hx eq_refl). discriminate Hx.
Qed.

Section RateLimiterMoreFacts.

Context {K : Type} `{Countable K}.

Lemma allow_request_unfold (rl : RateLimiter K) identifier t :
  allow_request rl identifier t =
    let kept :=
      List.filter (fun r => float_lt_int (PrimFloat.sub t r) (window rl))
                  (requests_of rl identifier) in
    if Z.of_nat (length kept) <? limit rl
    then (true,
          mkRateLimiter (limit rl) (window rl)
            (<[identifier := kept ++ [t]]> (requests rl)))
    else (false,
          mkRateLimiter (limit rl) (window rl)
            (<[identifier := kept]> (requests rl))).
Proof. reflexivity. Qed.

Lemma requests_of_insert_ne lim win (m : gmap K (list float)) a b v :
  a <> b ->
  requests_of (mkRateLimiter lim win (<[a := v]> m)) b =
  requests_of (mkRateLimiter lim win m) b.
Proof.
  intros Hne. unfold requests_of. cbn [requests].
  now rewrite lookup_insert_ne.
Qed.

Lemma allow_request_other (rl : RateLimiter K) a b t :
  a <> b ->
  requests_of (snd (allow_request rl a t)) b = requests_of rl b.
Proof.
  intros Hne. rewrite allow_request_unfold. cbv zeta.
  destruct (_ <? _); cbn [snd]; rewrite requests_of_insert_ne by exact Hne;
    now destruct rl.
Qed.

Lemma allow_request_settings (rl : RateLimiter K) identifier t :
  limit (snd (allow_request rl identifier t)) = limit rl /\
  window (snd (allow_request rl identifier t)) = window rl.
Proof.
  rewrite allow_request_unfold. cbv zeta. now destruct (_ <? _).
Qed.

(** One call keeps the identifier's stored list within the limit. *)
Lemma allow_request_bound (rl : RateLimiter K) identifier t :
  Z.of_nat (length (requests_of rl identifier)) <= Z.max 0 (limit rl) ->
  Z.of_nat (length (requests_of (snd (allow_request rl identifier t))
                      identifier)) <= Z.max 0 (limit rl).
Proof.
  intros Hbound. rewrite allow_request_unfold. cbv zeta.
  pose proof (filter_length_le
                (fun r => float_lt_int (PrimFloat.sub t r) (window rl))
                (requests_of rl identifier)) as Hle.
  destruct (Z.ltb_spec
              (Z.of_nat (length (List.filter
                                   (fun r =>
                                      float_lt_int (PrimFloat.sub t r)
                                        (window rl))
                                   (requests_of rl identifier))))
              (limit rl)) as [Hlt|Hge];
    cbn [snd]; rewrite requests_of_insert.
  - rewrite length_app. simpl. lia.
  - lia.
Qed.

(** X12. The limiter's memory per identifier is bounded by the limit: a
    new limiter stores nothing, and a call for any identifier leaves every
    identifier with at most [max 0 limit] stored timestamps if that was so
    before the call. *)
Theorem allow_request_bounds_memory (rl : RateLimiter K) identifier t :
  (forall lim win (k : K),
     requests_of (new_rate_limiter lim win) k = []) /\
  ((forall k, Z.of_nat (length (requests_of rl k)) <= Z.max 0 (limit rl)) ->
   forall k,
     Z.of_nat (length (requests_of (snd (allow_request rl identifier t)) k))
     <= Z.max 0 (limit (snd (allow_request rl identifier t)))).
Proof.
  split; [intros; apply requests_of_new|].
  intros Hall k.
  destruct (allow_request_settings rl identifier t) as [-> _].
  destruct (decide (identifier = k)) as [<-|Hne].
  - apply allow_request_bound, Hall.
  - rewrite allow_request_other by exact Hne. apply Hall.
Qed.

(** X13. Identifiers do not interfere: a call for one identifier changes
    neither the answer nor the stored timestamps of a later call for
    another identifier. *)
Theorem allow_request_identifiers_independent
        (rl : RateLimiter K) a b ta tb :
  a <> b ->
  fst (allow_request (snd (allow_request rl a ta)) b tb) =
    fst (allow_request rl b tb) /\
  requests_of (snd (allow_request (snd (allow_request rl a ta)) b tb)) b =
    requests_of (snd (allow_request rl b tb)) b.
Proof.
  intros Hne.
  rewrite (allow_request_unfold (snd (allow_request rl a ta)) b tb).
  rewrite (allow_request_unfold rl b tb). cbv zeta.
  destruct (allow_request_settings rl a ta) as [-> ->].
  rewrite (allow_request_other rl a b ta Hne).
  destruct (_ <? _); cbn [fst snd]; rewrite !requests_of_insert; auto.
Qed.

(** X14. A denied call leaves no trace: if a call is denied, a later call
    for the same identifier whose window test passes no stored timestamp
    that the denied call's test rejected gets the answer, and leaves the
    limiter in the state, it would have had without the denied call. *)
Theorem denied_request_leaves_no_trace
        (rl : RateLimiter K) identifier t t' :
  fst (allow_request rl identifier t) = false ->
  Forall (fun r => in_window rl t' r = true -> in_window rl t r = true)
         (requests_of rl identifier) ->
  allow_request (snd (allow_request rl identifier t)) identifier t' =
  allow_request rl identifier t'.
Proof.
  intros Hdenied Hle.
  rewrite (allow_request_unfold rl identifier t) in *. cbv zeta in *.
  destruct (_ <? _); [discriminate|]. cbn [snd].
  rewrite !allow_request_unfold. cbv zeta. cbn [limit window requests].
  rewrite requests_of_insert.
  unfold in_window in Hle.
  rewrite (filter_filter_weaker_in
             (fun r => float_lt_int (PrimFloat.sub t r) (window rl))
             (fun r => float_lt_int (PrimFloat.sub t' r) (window rl))
             _ Hle).
  rewrite !insert_insert_eq. reflexivity.
Qed.

End RateLimiterMoreFacts.


(** * Further properties of the endpoints *)

Section MainMoreFacts.

Variable JWT_SECRET : option string.
Variable JWT_ALGORITHM : string.
Variable jwt_decode :
  string -> option string -> list string -> datetime -> Decoded.
Variable local_utc_offset : Z.
Variable generate_soap_note : string -> string + string.
Variable transcribe_audio : list Byte.byte -> string -> string + string.
Variable transcribe_audio_with_diarization :
  list Byte.byte -> string -> string + list (string * string).

Local Abbreviation gate :=
  (verify_token JWT_SECRET JWT_ALGORITHM jwt_decode local_utc_offset).
Local Abbreviation text_endpoint :=
  (generate_note_from_text JWT_SECRET JWT_ALGORITHM jwt_decode
     local_utc_offset generate_soap_note).
Local Abbreviation audio_endpoint :=
  (generate_note_from_audio JWT_SECRET JWT_ALGORITHM jwt_decode
     local_utc_offset generate_soap_note transcribe_audio
     transcribe_audio_with_diarization).
Local Abbreviation audio_body :=
  (process_audio generate_soap_note transcribe_audio
     transcribe_audio_with_diarization).

(** The [try] block of the audio endpoint never gets past line 168: the
    name [Path] is not bound, the lookup raises, and the table is as the
    block found it. *)
Lemma process_audio_writes content_type filename use_diarization
      audio_content token_data db :
  audio_body content_type filename use_diarization audio_content
    token_data db = (inl (name_error "Path"), db).
Proof. reflexivity. Qed.

(** X16. A request the gate refuses stops at the gate: both endpoints
    answer with the gate's own error and leave the whole application
    state, table and rate limiter, exactly as it was. *)
Theorem refused_request_changes_nothing
        text content_type filename use_diarization audio_content
        authorization client_ip utcnow current_time app e db :
  verify_token JWT_SECRET JWT_ALGORITHM jwt_decode local_utc_offset
    authorization utcnow (licenses app) = (Raise e, db) ->
  generate_note_from_text JWT_SECRET JWT_ALGORITHM jwt_decode
    local_utc_offset generate_soap_note
    text authorization client_ip utcnow current_time app = (Raise e, app) /\
  generate_note_from_audio JWT_SECRET JWT_ALGORITHM jwt_decode
    local_utc_offset generate_soap_note transcribe_audio
    transcribe_audio_with_diarization
    content_type filename use_diarization audio_content
    authorization client_ip utcnow current_time app = (Raise e, app).
Proof.
  intros Hgate.
  assert (Hdb : db = licenses app).
  { now destruct (gate_raise_inv _ _ _ _ _ _ _ _ _ Hgate) as [_ ->]. }
  subst db. unfold generate_note_from_text, generate_note_from_audio.
  rewrite Hgate. now destruct app.
Qed.


(** X18. What a request costs at the two endpoints. A note returned by
    the text endpoint has cost the subject one note. The audio endpoint
    returns no note at all: a request that the gate grants, the limiter
    allows and whose file type is supported (its upload read without
    error) is answered with status 500, the detail naming the unbound
    [Path] of line 168, and has cost the subject one note all the
    same. *)
Theorem served_note_cost
        text content_type filename use_diarization audio_content
        authorization client_ip utcnow current_time app note app' :
  (text_endpoint text authorization client_ip utcnow current_time app
     = (Return note, app') ->
   generate_soap_note text = inr note /\
   exists token_data,
     charged_once (sub token_data) (licenses app) (licenses app')) /\
  audio_endpoint content_type filename use_diarization audio_content
    authorization client_ip utcnow current_time app
    <> (Return note, app') /\
  (forall token_data db,
     gate authorization utcnow (licenses app) = (Return token_data, db) ->
     fst (allow_request (rate_limiter app)
            (str_or (sub token_data) client_ip) current_time) = true ->
     existsb (String.eqb content_type) supported_content_types = true ->
     audio_endpoint content_type filename use_diarization audio_content
       authorization client_ip utcnow current_time app
     = (Raise (HTTPException 500
                 "Failed to process audio and generate note: name 'Path' is not defined"
                 []),
        mkApp db
          (snd (allow_request (rate_limiter app)
                  (str_or (sub token_data) client_ip) current_time))) /\
     charged_once (sub token_data) (licenses app) db).
Proof.
  split; [|split].
  - intros Hrun. unfold generate_note_from_text in Hrun.
    destruct (gate authorization utcnow (licenses app))
      as [[token_data|e] db] eqn:Hgate; [|discriminate Hrun].
    destruct (allow_request _ _ _) as [allowed rl].
    destruct allowed; cbn [negb] in Hrun; [|discriminate Hrun].
    destruct (generate_soap_note text) as [msg|n]; [discriminate Hrun|].
    injection Hrun as -> <-. split; [reflexivity|].
    exists token_data. cbn [licenses].
    now apply (gate_grant_charges _ _ _ _ _ _ _ _ _ Hgate).
  - unfold generate_note_from_audio.
    destruct (gate authorization utcnow (licenses app))
      as [[token_data|e] db]; [|discriminate].
    destruct (allow_request _ _ _) as [allowed rl].
    destruct allowed; cbn [negb]; [|discriminate].
    destruct (negb _); [discriminate|].
    rewrite process_audio_writes. discriminate.
  - intros token_data db Hgate Hallow Hsupported.
    split; [|now apply (gate_grant_charges _ _ _ _ _ _ _ _ _ Hgate)].
    unfold generate_note_from_audio. rewrite Hgate.
    destruct (allow_request _ _ _) as [allowed rl].
    cbn [fst snd] in *. subst allowed. cbn [negb].
    rewrite Hsupported. cbn [negb].
    rewrite process_audio_writes. reflexivity.
Qed.

End MainMoreFacts.


(** * Usage statistics *)

(** The active rows of one plan, the plan name compared in lower case. *)
Lemma plan_stats_add_same name l breakdown :
  plan_stats name (add_to_plan name l breakdown) =
    option_map
      (fun st => mkPlanStats (users st + 1)
                   (plan_notes_used st + notes_used l)
                   (plan_notes_limit st + notes_limit l))
      (plan_stats name breakdown).
Proof.
  induction breakdown as [|[k st] rest IH]; simpl; [reflexivity|].
  destruct (String.eqb k name) eqn:Hk; simpl; rewrite Hk; [reflexivity|].
  exact IH.
Qed.

Lemma plan_stats_add_other name other l breakdown :
  other <> name ->
  plan_stats name (add_to_plan other l breakdown) = plan_stats name breakdown.
Proof.
  intros Hne. induction breakdown as [|[k st] rest IH]; simpl; [reflexivity|].
  destruct (String.eqb_spec k other) as [->|Hko]; simpl.
  - destruct (String.eqb_spec other name); [contradiction|reflexivity].
  - destruct (String.eqb k name); [reflexivity|exact IH].
Qed.

Lemma usage_fold rows : forall acc,
  total_users (fold_left count_license rows acc) =
    total_users acc + Z.of_nat (length rows) /\
  total_notes_used (fold_left count_license rows acc) =
    total_notes_used acc + fold_right Z.add 0 (map notes_used rows) /\
  forall name,
    plan_stats name (plan_breakdown (fold_left count_license rows acc)) =
      option_map
        (fun st =>
           let mine :=
             List.filter (fun l => String.eqb (lower (plan_type l)) name)
                         rows in
           mkPlanStats (users st + Z.of_nat (length mine))
             (plan_notes_used st + fold_right Z.add 0 (map notes_used mine))
             (plan_notes_limit st + fold_right Z.add 0 (map notes_limit mine)))
        (plan_stats name (plan_breakdown acc)).
Proof.
  induction rows as [|l rest IH]; intros acc.
  - cbn [fold_left length map fold_right List.filter Z.of_nat].
    split; [lia|]. split; [lia|]. intros name.
    destruct (plan_stats name (plan_breakdown acc)) as [[u n m]|];
      [|reflexivity].
    simpl. do 2 f_equal; lia.
  - cbn [fold_left].
    destruct (IH (count_license acc l)) as (Hu & Hn & Hp).
    split; [rewrite Hu; simpl; lia|].
    split; [rewrite Hn; simpl; lia|].
    intros name. rewrite Hp. cbn [count_license plan_breakdown List.filter].
    destruct (String.eqb_spec (lower (plan_type l)) name) as [<-|Hne].
    + rewrite plan_stats_add_same.
      destruct (plan_stats _ (plan_breakdown acc)) as [[u n m]|];
        [|reflexivity].
      cbn [option_map]. cbv zeta. f_equal.
      cbn [users plan_notes_used plan_notes_limit length map fold_right].
      f_equal; lia.
    + rewrite plan_stats_add_other by exact Hne. reflexivity.
Qed.

(** X19. [get_usage_statistics] counts active licenses only:
    [total_users] is their number and [total_notes_used] the sum of their
    [notes_used]; for each of the plans starter, pro and enterprise the
    breakdown holds the number of active licenses whose plan, in lower
    case, is that name, with the sums of their [notes_used] and
    [notes_limit]. *)
Theorem usage_statistics_count_active_licenses db name :
  let rows := List.filter active db in
  let mine :=
    List.filter (fun l => String.eqb (lower (plan_type l)) name) rows in
  total_users (get_usage_statistics db) = Z.of_nat (length rows) /\
  total_notes_used (get_usage_statistics db) =
    fold_right Z.add 0 (map notes_used rows) /\
  (In name ["starter"; "pro"; "enterprise"]%string ->
   plan_stats name (plan_breakdown (get_usage_statistics db)) =
     Some (mkPlanStats (Z.of_nat (length mine))
             (fold_right Z.add 0 (map notes_used mine))
             (fold_right Z.add 0 (map notes_limit mine)))) /\
  (~ In name ["starter"; "pro"; "enterprise"]%string ->
   plan_stats name (plan_breakdown (get_usage_statistics db)) = None).
Proof.
  intros rows mine. unfold get_usage_statistics. fold rows.
  destruct (usage_fold rows initial_stats) as (Hu & Hn & Hp).
  split; [rewrite Hu; simpl; lia|]. split; [rewrite Hn; simpl; lia|].
  split.
  - intros Hin. rewrite Hp. fold mine.
    destruct Hin as [<-|[<-|[<-|[]]]]; reflexivity.
  - intros Hout. rewrite Hp. cbn [initial_stats plan_breakdown plan_stats].
    destruct (String.eqb_spec "starter" name);
      [exfalso; apply Hout; simpl; auto|].
    destruct (String.eqb_spec "pro" name);
      [exfalso; apply Hout; simpl; auto|].
    destruct (String.eqb_spec "enterprise" name);
      [exfalso; apply Hout; simpl; auto|].
    reflexivity.
Qed.

Lemma filter_all_true {A} (p : A -> bool) (l : list A) :
  Forall (fun x => p x = true) l -> List.filter p l = l.
Proof.
  induction 1 as [|x rest Hx _ IH]; simpl; [reflexivity|].
  now rewrite Hx, IH.
Qed.

Lemma add_to_plan_keys name l breakdown :
  map fst (add_to_plan name l breakdown) = map fst breakdown.
Proof.
  induction breakdown as [|[k st] rest IH]; simpl; [reflexivity|].
  destruct (String.eqb k name); simpl; [reflexivity|now rewrite IH].
Qed.

Lemma add_to_plan_users name l breakdown :
  fold_right Z.add 0
    (map (fun kv => users (snd kv)) (add_to_plan name l breakdown)) =
  fold_right Z.add 0 (map (fun kv => users (snd kv)) breakdown) +
  (if existsb (fun k => String.eqb k name) (map fst breakdown) then 1 else 0).
Proof.
  induction breakdown as [|[k st] rest IH]; simpl; [reflexivity|].
  destruct (String.eqb k name); simpl; [lia|]. rewrite IH. lia.
Qed.

Lemma breakdown_fold rows : forall acc,
  map fst (plan_breakdown (fold_left count_license rows acc)) =
    map fst (plan_breakdown acc) /\
  fold_right Z.add 0
    (map (fun kv => users (snd kv))
       (plan_breakdown (fold_left count_license rows acc))) =
  fold_right Z.add 0
    (map (fun kv => users (snd kv)) (plan_breakdown acc)) +
  Z.of_nat
    (length
       (List.filter
          (fun l => existsb (fun k => String.eqb k (lower (plan_type l)))
                      (map fst (plan_breakdown acc)))
          rows)).
Proof.
  induction rows as [|l rest IH]; intros acc.
  - simpl. split; [reflexivity|lia].
  - cbn [fold_left]. destruct (IH (count_license acc l)) as [Hk Hu].
    cbn [count_license plan_breakdown] in Hk, Hu.
    rewrite add_to_plan_keys in Hk, Hu. rewrite add_to_plan_users in Hu.
    split; [exact Hk|]. rewrite Hu. cbn [List.filter].
    destruct (existsb _ (map fst (plan_breakdown acc))); simpl length; lia.
Qed.

(** X20. The plan breakdown is consistent with the totals: it always has
    exactly the entries starter, pro and enterprise, the users it counts
    are the active licenses whose plan is one of the three, so never more
    than [total_users], and all of them when every active license is on
    one of the three plans. *)
Theorem usage_breakdown_within_totals db :
  map fst (plan_breakdown (get_usage_statistics db)) =
    ["starter"; "pro"; "enterprise"]%string /\
  fold_right Z.add 0
    (map (fun kv => users (snd kv))
       (plan_breakdown (get_usage_statistics db)))
  <= total_users (get_usage_statistics db) /\
  (Forall (fun l => In (lower (plan_type l))
                      ["starter"; "pro"; "enterprise"]%string)
          (List.filter active db) ->
   fold_right Z.add 0
     (map (fun kv => users (snd kv))
        (plan_breakdown (get_usage_statistics db)))
   = total_users (get_usage_statistics db)).
Proof.
  unfold get_usage_statistics.
  destruct (breakdown_fold (List.filter active db) initial_stats) as [Hk Hu].
  destruct (usage_fold (List.filter active db) initial_stats) as (Ht & _ & _).
  split; [exact Hk|]. rewrite Hu, Ht.
  cbn [initial_stats plan_breakdown total_users map fst snd users fold_right].
  split.
  - pose proof (filter_length_le
                  (fun l => existsb
                              (fun k => String.eqb k (lower (plan_type l)))
                              ["starter"; "pro"; "enterprise"]%string)
                  (List.filter active db)).
    lia.
  - intros Hknown.
    assert (Hall :
              List.filter
                (fun l => existsb
                            (fun k => String.eqb k (lower (plan_type l)))
                            ["starter"; "pro"; "enterprise"]%string)
                (List.filter active db) = List.filter active db).
    { apply filter_all_true. revert Hknown. apply List.Forall_impl.
      intros l Hl. apply existsb_exists. exists (lower (plan_type l)).
      split; [exact Hl|apply String.eqb_refl]. }
    rewrite Hall. lia.
Qed.

(** * Grouping utterances by speaker *)

Lemma dict_lookup_append speaker text k (d : list (string * list string)) :
  dict_lookup k (append_utterance speaker text d) =
    if String.eqb speaker k
    then Some (default [] (dict_lookup k d) ++ [text])
    else dict_lookup k d.
Proof.
  induction d as [|[k' texts] rest IH]; simpl.
  - destruct (String.eqb speaker k); reflexivity.
  - destruct (String.eqb_spec k' speaker) as [->|Hne]; simpl.
    + destruct (String.eqb speaker k); reflexivity.
    + destruct (String.eqb_spec k' k) as [->|Hk].
      * destruct (String.eqb_spec speaker k); [congruence|reflexivity].
      * exact IH.
Qed.

Lemma collect_lookup us : forall d k,
  dict_lookup k
    (fold_left (fun d u => append_utterance (speaker_label (fst u)) (snd u) d)
       us d) =
    match dict_lookup k d, utterances_of k us with
    | None, [] => None
    | None, texts => Some texts
    | Some mine, texts => Some (mine ++ texts)
    end.
Proof.
  induction us as [|[speaker text] rest IH]; intros d k.
  - cbn [fold_left utterances_of List.filter map].
    destruct (dict_lookup k d); [now rewrite app_nil_r|reflexivity].
  - cbn [fold_left fst snd]. rewrite IH, dict_lookup_append.
    unfold utterances_of. cbn [List.filter fst].
    destruct (String.eqb (speaker_label speaker) k); cbn [map snd].
    + destruct (dict_lookup k d) as [mine|]; cbn [default].
      * now rewrite <- app_assoc.
      * reflexivity.
    + reflexivity.
Qed.

Lemma dict_lookup_map {V W} (g : V -> W) k (d : list (string * V)) :
  dict_lookup k (map (fun kv => (fst kv, g (snd kv))) d) =
    option_map g (dict_lookup k d).
Proof.
  induction d as [|[k' v] rest IH]; simpl; [reflexivity|].
  destruct (String.eqb k' k); [reflexivity|exact IH].
Qed.

(** X21. The dictionary of a diarized transcription groups by speaker:
    a speaker label has an entry exactly when some utterance carries it,
    and the entry is that speaker's utterances, in the order they were
    spoken, joined by single spaces. *)
Theorem transcript_by_speaker_groups utterances speaker :
  dict_lookup speaker (transcript_by_speaker utterances) =
    match utterances_of speaker utterances with
    | [] => None
    | texts => Some (join " " texts)
    end.
Proof.
  unfold transcript_by_speaker, collect_utterances.
  rewrite dict_lookup_map, collect_lookup. cbn [dict_lookup].
  now destruct (utterances_of speaker utterances).
Qed.

Lemma append_utterance_keys speaker text (d : list (string * list string)) :
  map fst (append_utterance speaker text d) =
    if existsb (String.eqb speaker) (map fst d)
    then map fst d else map fst d ++ [speaker].
Proof.
  induction d as [|[k texts] rest IH]; simpl; [reflexivity|].
  rewrite (String.eqb_sym speaker k).
  destruct (String.eqb k speaker); simpl; [reflexivity|].
  rewrite IH. now destruct (existsb _ _).
Qed.

Lemma collect_keys us : forall (d : list (string * list string)) seen,
  (forall x, existsb (String.eqb x) seen =
             existsb (String.eqb x) (map fst d)) ->
  map fst
    (fold_left (fun d u => append_utterance (speaker_label (fst u)) (snd u) d)
       us d) =
  map fst d ++ first_occurrences seen (map (fun u => speaker_label (fst u)) us).
Proof.
  induction us as [|[speaker text] rest IH]; intros d seen Hseen.
  - simpl. now rewrite app_nil_r.
  - cbn [fold_left map first_occurrences fst snd].
    rewrite (Hseen (speaker_label speaker)).
    destruct (existsb (String.eqb (speaker_label speaker)) (map fst d))
      eqn:Hknown.
    + rewrite (IH _ seen).
      * now rewrite append_utterance_keys, Hknown.
      * intros x. now rewrite append_utterance_keys, Hknown.
    + rewrite (IH _ (speaker_label speaker :: seen)).
      * rewrite append_utterance_keys, Hknown.
        now rewrite <- app_assoc.
      * intros x. rewrite append_utterance_keys, Hknown.
        rewrite existsb_app. cbn [existsb].
        rewrite Hseen, orb_false_r. apply orb_comm.
Qed.

(** X22. The speakers of a diarized transcription are listed once each,
    in the order of their first utterance. *)
Theorem transcript_by_speaker_order utterances :
  map fst (transcript_by_speaker utterances) =
    first_occurrences []
      (map (fun u => speaker_label (fst u)) utterances) /\
  NoDup (map fst (transcript_by_speaker utterances)).
Proof.
  assert (Hkeys : map fst (transcript_by_speaker utterances) =
                  first_occurrences []
                    (map (fun u => speaker_label (fst u)) utterances)).
  { unfold transcript_by_speaker, collect_utterances.
    rewrite map_map. cbn [fst].
    change (map (fun x : string * list string => fst x)) with
      (map (@fst string (list string))).
    now rewrite (collect_keys utterances [] []). }
  split; [exact Hkeys|]. rewrite Hkeys.
  assert (Hgen : forall l seen,
            NoDup (first_occurrences seen l) /\
            forall x, In x (first_occurrences seen l) -> ~ In x seen).
  { induction l as [|x rest IH]; intros seen; simpl.
    - split; [constructor|tauto].
    - destruct (existsb (String.eqb x) seen) eqn:Hx; [apply IH|].
      destruct (IH (x :: seen)) as [Hnd Hfresh]. split.
      + apply NoDup_cons. split; [|exact Hnd].
        intros Hin. apply list_elem_of_In in Hin.
        apply (Hfresh x Hin). now left.
      + intros y [<-|Hin].
        * intros Hseen.
          assert (existsb (String.eqb x) seen = true)
            by (apply existsb_exists; exists x; split;
                [exact Hseen|apply String.eqb_refl]).
          congruence.
        * intros Hseen. apply (Hfresh y Hin). now right. }
  apply Hgen.
Qed.


(** * Instances of the conditional statements above *)

Lemma bearer_prefix_is_optional_witness :
  ex_gate (Some "Bearer jwt.u1"%string) (ex_t0 * 1000000 + 5)
          [ex_license 5 2] =
  ex_gate (Some "jwt.u1"%string) (ex_t0 * 1000000 + 5) [ex_license 5 2].
Proof.
  apply (bearer_prefix_is_optional ex_secret ex_alg ex_decode 0 "jwt.u1").
  - discriminate.
  - reflexivity.
Defined.

Lemma license_status_decides_access_witness :
  ex_gate (Some "jwt.u1"%string) (ex_t0 * 1000000 + 5)
          (snd (update_license_status "sub_1" false
                  [ex_other; ex_license 5 2])) =
    (Raise jwt_attribute_error,
     [ex_other; set_active false (ex_license 5 2)]) /\
  ex_gate (Some "jwt.u1"%string) (ex_t0 * 1000000 + 5)
          (snd (update_license_status "sub_1" true
                  [ex_other; set_active false (ex_license 5 2)])) =
    (Return ex_payload, [ex_other; ex_license 5 3]).
Proof.
  split.
  - apply (license_status_decides_access ex_secret ex_alg ex_decode 0
             "jwt.u1" ex_payload (ex_license 5 2) "sub_1"
             (ex_t0 * 1000000 + 5) [ex_other; ex_license 5 2]).
    + discriminate.
    + reflexivity.
    + vm_compute. discriminate.
    + reflexivity.
    + reflexivity.
  - apply (license_status_decides_access ex_secret ex_alg ex_decode 0
             "jwt.u1" ex_payload (set_active false (ex_license 5 2)) "sub_1"
             (ex_t0 * 1000000 + 5)
             [ex_other; set_active false (ex_license 5 2)]).
    + discriminate.
    + reflexivity.
    + vm_compute. discriminate.
    + reflexivity.
    + reflexivity.
    + vm_compute. reflexivity.
Defined.

Lemma swept_license_is_served_witness :
  fst (ex_gate (Some "jwt.u1"%string) (ex_t0 * 1000000 + 5)
         (snd (reset_monthly_usage (ex_t0 * 1000000) [ex_lapsed])))
    = Return ex_payload.
Proof.
  apply (swept_license_is_served ex_secret ex_alg ex_decode 0
           "jwt.u1" ex_payload ex_lapsed (ex_t0 * 1000000)
           (ex_t0 * 1000000 + 5) [ex_lapsed]).
  - discriminate.
  - reflexivity.
  - vm_compute. discriminate.
  - reflexivity.
  - reflexivity.
  - vm_compute. reflexivity.
  - vm_compute. reflexivity.
Defined.

Lemma new_license_is_served_witness :
  (exists lic db',
     create_license "u1" "u1@clinic.example" "starter" 20 "cus_1" "sub_1"
                    (ex_t0 * 1000000) [ex_other] = (Return lic, db') /\
     fst (ex_gate (Some "jwt.u1"%string) (ex_t0 * 1000000 + 5) db')
       = Return ex_payload) /\
  (exists lic db',
     create_license "u1" "u1@clinic.example" "starter" 0 "cus_1" "sub_1"
                    (ex_t0 * 1000000) [ex_other] = (Return lic, db') /\
     ex_gate (Some "jwt.u1"%string) (ex_t0 * 1000000 + 5) db'
       = (Raise jwt_attribute_error, db')).
Proof.
  assert (Huniq : unique_user_ids [ex_other]).
  { intros uid. unfold licenses_of. cbn [List.filter].
    destruct (by_user_id uid ex_other); cbn [length]; lia. }
  split.
  - destruct (new_license_is_served ex_secret ex_alg ex_decode 0
                "jwt.u1" ex_payload "u1@clinic.example" "starter" 20
                "cus_1" "sub_1" (ex_t0 * 1000000) (ex_t0 * 1000000 + 5)
                [ex_other])
      as (lic & db' & Hrun & Hserved & _).
    + exact Huniq.
    + right. reflexivity.
    + discriminate.
    + reflexivity.
    + vm_compute. discriminate.
    + exists lic, db'. split; [exact Hrun|]. apply Hserved. lia.
  - destruct (new_license_is_served ex_secret ex_alg ex_decode 0
                "jwt.u1" ex_payload "u1@clinic.example" "starter" 0
                "cus_1" "sub_1" (ex_t0 * 1000000) (ex_t0 * 1000000 + 5)
                [ex_other])
      as (lic & db' & Hrun & _ & Hrefused).
    + exact Huniq.
    + right. reflexivity.
    + discriminate.
    + reflexivity.
    + vm_compute. discriminate.
    + exists lic, db'. split; [exact Hrun|]. apply Hrefused. lia.
Defined.

Lemma unique_columns_are_kept_witness :
  unique_columns
    (snd (create_license "u3" "u3@clinic.example" "pro" 50 "cus_3" "sub_3"
            (ex_t0 * 1000000) [ex_license 5 2; ex_other])).
Proof.
  apply (unique_columns_are_kept ex_secret ex_alg ex_decode 0 None
           (ex_t0 * 1000000) "u3" "u3@clinic.example" "pro" 50
           "cus_3" "sub_3" "sub_1" false [ex_license 5 2; ex_other]).
  unfold unique_columns. cbn [map lic_id user_id email ex_license ex_other].
  repeat split;
    repeat (apply NoDup_cons_2;
            [intros Hin;
             repeat (apply elem_of_cons in Hin as [Hin|Hin];
                     [discriminate Hin|]);
             inversion Hin|]);
    apply NoDup_nil_2.
Defined.

Lemma lifecycle_keeps_quota_witness :
  within_quota (snd (reset_monthly_usage (ex_t0 * 1000000) [ex_lapsed])).
Proof.
  apply (lifecycle_keeps_quota "u3" "u3@clinic.example" "pro" 50
           "cus_3" "sub_3" "sub_1" false (ex_t0 * 1000000) [ex_lapsed]).
  - repeat constructor. vm_compute. discriminate.
  - repeat constructor. vm_compute. discriminate.
  - lia.
Defined.

Lemma allow_request_identifiers_independent_witness :
  fst (allow_request (snd (allow_request ex_string_limiter "a" 0%float))
         "b"%string 1%float) =
  fst (allow_request ex_string_limiter "b"%string 1%float).
Proof.
  apply (allow_request_identifiers_independent ex_string_limiter
           "a"%string "b"%string 0%float 1%float).
  discriminate.
Defined.

Lemma denied_request_leaves_no_trace_witness :
  allow_request
    (snd (allow_request ex_full_limiter (Some "u1"%string) 101%float))
    (Some "u1"%string) 102%float =
  allow_request ex_full_limiter (Some "u1"%string) 102%float.
Proof.
  apply (denied_request_leaves_no_trace ex_full_limiter
           (Some "u1"%string) 101%float 102%float).
  - vm_compute. reflexivity.
  - replace (requests_of ex_full_limiter (Some "u1"%string))
      with (repeat 100%float 10) by (vm_compute; reflexivity).
    apply List.Forall_forall. intros r Hin _.
    apply List.repeat_spec in Hin. subst r. vm_compute. reflexivity.
Defined.

Lemma refused_request_changes_nothing_witness :
  generate_note_from_text ex_secret ex_alg ex_decode 0 ex_soap
    "tooth 14 sensitive" None None (ex_t0 * 1000000 + 5) 101%float
    (mkApp [ex_license 5 2] ex_limiter) =
  (Raise (HTTPException 401 "Missing authentication token"
            www_authenticate),
   mkApp [ex_license 5 2] ex_limiter).
Proof.
  apply (refused_request_changes_nothing ex_secret ex_alg ex_decode 0
           ex_soap ex_transcribe ex_diarize
           "tooth 14 sensitive" "audio/wav" "visit.wav" false []
           None None (ex_t0 * 1000000 + 5) 101%float
           (mkApp [ex_license 5 2] ex_limiter)
           (HTTPException 401 "Missing authentication token"
              www_authenticate)
           [ex_license 5 2]).
  reflexivity.
Defined.


Lemma served_note_cost_witness :
  (ex_soap "tooth 14 sensitive" = inr "SOAP: tooth 14 sensitive"%string /\
   exists token_data,
     charged_once (sub token_data) [ex_license 5 2] [ex_license 5 3]) /\
  (generate_note_from_audio ex_secret ex_alg ex_decode 0 ex_soap
     ex_transcribe ex_diarize "audio/wav" "visit.wav" false []
     (Some "jwt.u1"%string) None (ex_t0 * 1000000 + 5) 101%float
     (mkApp [ex_license 5 2] ex_limiter)
   = (Raise (HTTPException 500
               "Failed to process audio and generate note: name 'Path' is not defined"
               []),
      mkApp [ex_license 5 3]
        (snd (allow_request ex_limiter (Some "u1"%string) 101%float))) /\
   charged_once "u1" [ex_license 5 2] [ex_license 5 3]).
Proof.
  destruct (served_note_cost ex_secret ex_alg ex_decode 0
              ex_soap ex_transcribe ex_diarize
              "tooth 14 sensitive" "audio/wav" "visit.wav" false []
              (Some "jwt.u1"%string) None (ex_t0 * 1000000 + 5) 101%float
              (mkApp [ex_license 5 2] ex_limiter)
              "SOAP: tooth 14 sensitive"%string
              (mkApp [ex_license 5 3]
                 (snd (allow_request ex_limiter (Some "u1"%string)
                         101%float))))
    as (Htext & _ & Haudio).
  split.
  - apply Htext. vm_compute. reflexivity.
  - apply (Haudio ex_payload [ex_license 5 3]);
      vm_compute; reflexivity.
Defined.

(** * Which requests can break the quota *)

Section QuotaAtTheEndpoints.

Variable JWT_SECRET : option string.
Variable JWT_ALGORITHM : string.
Variable jwt_decode :
  string -> option string -> list string -> datetime -> Decoded.
Variable local_utc_offset : Z.
Variable generate_soap_note : string -> string + string.
Variable transcribe_audio : list Byte.byte -> string -> string + string.
Variable transcribe_audio_with_diarization :
  list Byte.byte -> string -> string + list (string * string).

Local Abbreviation gate :=
  (verify_token JWT_SECRET JWT_ALGORITHM jwt_decode local_utc_offset).

(** X23. Nothing but a served audio note could push a row over its
    limit: on a table within quota, the text endpoint leaves a table within quota
    whatever it answers, and so does the audio endpoint whenever it
    answers with an error. *)
Theorem only_served_audio_can_exceed_quota
        text content_type filename use_diarization audio_content
        authorization client_ip utcnow current_time app :
  within_quota (licenses app) ->
  within_quota
    (licenses
       (snd (generate_note_from_text JWT_SECRET JWT_ALGORITHM jwt_decode
               local_utc_offset generate_soap_note
               text authorization client_ip utcnow current_time app))) /\
  forall e app',
    generate_note_from_audio JWT_SECRET JWT_ALGORITHM jwt_decode
      local_utc_offset generate_soap_note transcribe_audio
      transcribe_audio_with_diarization
      content_type filename use_diarization audio_content
      authorization client_ip utcnow current_time app = (Raise e, app') ->
    within_quota (licenses app').
Proof.
  intros Hq.
  pose proof (verify_token_keeps_quota JWT_SECRET JWT_ALGORITHM jwt_decode
                local_utc_offset authorization utcnow (licenses app) Hq)
    as Hgate.
  split.
  - unfold generate_note_from_text.
    destruct (gate authorization utcnow (licenses app)) as [[p|e] db];
      cbn [snd] in Hgate; [|exact Hgate].
    destruct (allow_request _ _ _) as [allowed rl].
    destruct allowed; cbn [negb]; [|exact Hgate].
    destruct (generate_soap_note text); exact Hgate.
  - intros e app'. unfold generate_note_from_audio.
    destruct (gate authorization utcnow (licenses app)) as [[p|e0] db];
      cbn [snd] in Hgate; [|now intros [= _ <-]].
    destruct (allow_request _ _ _) as [allowed rl].
    destruct allowed; cbn [negb]; [|now intros [= _ <-]].
    destruct (negb _); [now intros [= _ <-]|].
    rewrite process_audio_writes. now intros [= _ <-].
Qed.

End QuotaAtTheEndpoints.

Lemma only_served_audio_can_exceed_quota_witness :
  within_quota
    (licenses
       (snd (generate_note_from_text ex_secret ex_alg ex_decode 0 ex_soap
               "tooth 14 sensitive" (Some "jwt.u1"%string) None
               (ex_t0 * 1000000 + 5) 101%float
               (mkApp [ex_license 1 0] ex_limiter)))).
Proof.
  apply (only_served_audio_can_exceed_quota ex_secret ex_alg ex_decode 0
           ex_soap ex_transcribe ex_diarize
           "tooth 14 sensitive" "audio/wav" "visit.wav" false []
           (Some "jwt.u1"%string) None (ex_t0 * 1000000 + 5) 101%float
           (mkApp [ex_license 1 0] ex_limiter)).
  repeat constructor. vm_compute. discriminate.
Defined.

(** * The quota in every reachable state *)

(** The gate does not touch the limits. *)
Lemma verify_token_keeps_limits secret alg decode offset token utcnow db :
  limits_nonnegative db ->
  limits_nonnegative
    (snd (verify_token secret alg decode offset token utcnow db)).
Proof.
  intros Hl.
  destruct (gate_cases secret alg decode offset token utcnow db)
    as [(e & -> & _)|(payload & license & _ & _ & _ & ->)]; cbn [snd].
  - exact Hl.
  - apply Forall_update_first; [|exact Hl]. intros l Hn. exact Hn.
Qed.

(** The lifecycle operations keep the quota and the limits, an upsert
    being given a limit that is not negative. *)
Lemma create_license_keeps_invariants
      uid em plan_ty limit customer subscription utcnow db :
  0 <= limit ->
  within_quota db -> limits_nonnegative db ->
  within_quota
    (snd (create_license uid em plan_ty limit customer subscription
            utcnow db)) /\
  limits_nonnegative
    (snd (create_license uid em plan_ty limit customer subscription
            utcnow db)).
Proof.
  unfold within_quota, limits_nonnegative. intros Hlimit Hq Hl.
  unfold create_license.
  destruct (first (List.filter (by_user_id uid) db)) as [existing|];
    cbn [snd].
  - split; apply Forall_update_first; auto; intros; simpl; lia.
  - destruct (existsb (by_email em) db); cbn [snd]; [auto|].
    split; apply List.Forall_app; split; auto;
      repeat constructor; simpl; lia.
Qed.

Lemma update_license_status_keeps_invariants sid b db :
  within_quota db -> limits_nonnegative db ->
  within_quota (snd (update_license_status sid b db)) /\
  limits_nonnegative (snd (update_license_status sid b db)).
Proof.
  unfold within_quota, limits_nonnegative. intros Hq Hl.
  unfold update_license_status.
  destruct (first (List.filter (by_subscription sid) db)); cbn [snd];
    [|auto].
  split; apply Forall_update_first; auto.
Qed.

Lemma reset_monthly_usage_keeps_invariants utcnow db :
  within_quota db -> limits_nonnegative db ->
  within_quota (snd (reset_monthly_usage utcnow db)) /\
  limits_nonnegative (snd (reset_monthly_usage utcnow db)).
Proof.
  unfold within_quota, limits_nonnegative. intros Hq Hl.
  unfold reset_monthly_usage. cbn [snd]. split.
  - apply List.Forall_map.
    apply (List.Forall_impl _ (P := fun l => notes_used l <= notes_limit l
                                             /\ 0 <= notes_limit l)).
    + intros l [Hu Hn]. destruct (cycle_ended utcnow l); simpl; lia.
    + apply List.Forall_and; assumption.
  - apply List.Forall_map. revert Hl. apply List.Forall_impl.
    intros l Hn. destruct (cycle_ended utcnow l); simpl; lia.
Qed.

Section ReachableStates.

Variable JWT_SECRET : option string.
Variable JWT_ALGORITHM : string.
Variable jwt_decode :
  string -> option string -> list string -> datetime -> Decoded.
Variable local_utc_offset : Z.
Variable generate_soap_note : string -> string + string.
Variable transcribe_audio : list Byte.byte -> string -> string + string.
Variable transcribe_audio_with_diarization :
  list Byte.byte -> string -> string + list (string * string).

Local Abbreviation gate :=
  (verify_token JWT_SECRET JWT_ALGORITHM jwt_decode local_utc_offset).
Local Abbreviation text_endpoint :=
  (generate_note_from_text JWT_SECRET JWT_ALGORITHM jwt_decode
     local_utc_offset generate_soap_note).
Local Abbreviation audio_endpoint :=
  (generate_note_from_audio JWT_SECRET JWT_ALGORITHM jwt_decode
     local_utc_offset generate_soap_note transcribe_audio
     transcribe_audio_with_diarization).
Local Abbreviation run :=
  (perform_all JWT_SECRET JWT_ALGORITHM jwt_decode local_utc_offset
     generate_soap_note transcribe_audio transcribe_audio_with_diarization).
Local Abbreviation step :=
  (perform JWT_SECRET JWT_ALGORITHM jwt_decode local_utc_offset
     generate_soap_note transcribe_audio transcribe_audio_with_diarization).

(** Whatever the text endpoint answers, the table it leaves is the table
    its gate call left. *)
Lemma text_endpoint_table text authorization client_ip utcnow current_time
      app :
  licenses (snd (text_endpoint text authorization client_ip utcnow
                   current_time app))
  = snd (gate authorization utcnow (licenses app)).
Proof.
  unfold generate_note_from_text.
  destruct (gate authorization utcnow (licenses app)) as [[p|e] db];
    [|reflexivity].
  destruct (allow_request _ _ _) as [allowed rl].
  destruct allowed; cbn [negb]; [|reflexivity].
  destruct (generate_soap_note text); reflexivity.
Qed.

(** The same for the audio endpoint: lines 188-196 are never reached. *)
Lemma audio_endpoint_table content_type filename use_diarization
      audio_content authorization client_ip utcnow current_time app :
  licenses (snd (audio_endpoint content_type filename use_diarization
                   audio_content authorization client_ip utcnow
                   current_time app))
  = snd (gate authorization utcnow (licenses app)).
Proof.
  unfold generate_note_from_audio.
  destruct (gate authorization utcnow (licenses app)) as [[p|e] db];
    [|reflexivity].
  destruct (allow_request _ _ _) as [allowed rl].
  destruct allowed; cbn [negb]; [|reflexivity].
  destruct (negb _); reflexivity.
Qed.

(** One operation keeps the quota and the limits. *)
Lemma perform_keeps_invariants op app :
  in_domain op ->
  within_quota (licenses app) -> limits_nonnegative (licenses app) ->
  within_quota (licenses (step op app)) /\
  limits_nonnegative (licenses (step op app)).
Proof.
  intros Hop Hq Hl.
  destruct op; cbn [perform in_domain] in *.
  - cbn [licenses]. now apply create_license_keeps_invariants.
  - cbn [licenses]. split;
      [now apply verify_token_keeps_quota|now apply verify_token_keeps_limits].
  - cbn [licenses]. now apply update_license_status_keeps_invariants.
  - cbn [licenses]. now apply reset_monthly_usage_keeps_invariants.
  - rewrite text_endpoint_table. split;
      [now apply verify_token_keeps_quota|now apply verify_token_keeps_limits].
  - rewrite audio_endpoint_table. split;
      [now apply verify_token_keeps_quota|now apply verify_token_keeps_limits].
Qed.

(** C5. Take a state in which every row is within its quota and has a
    limit that is not negative, the empty table for one. After any
    sequence of license upserts (with limits that are not negative, as
    the data model has them), gate calls, status updates, cycle
    reconciliations and requests to the two note-generation endpoints,
    every row has [notes_used <= notes_limit]. Each request to an
    endpoint leaves the table as its one gate call leaves it: the
    post-generation update of the audio endpoint (lines 188-196) is never
    reached, the [try] block failing at line 168. And a gate call
    charges exactly one note when it grants and writes nothing when it
    fails: the gate is the one point of increment. *)
Theorem reachable_states_within_quota ops app :
  within_quota (licenses app) ->
  limits_nonnegative (licenses app) ->
  Forall in_domain ops ->
  within_quota
    (licenses
       (perform_all JWT_SECRET JWT_ALGORITHM jwt_decode local_utc_offset
          generate_soap_note transcribe_audio
          transcribe_audio_with_diarization ops app)) /\
  (forall text content_type filename use_diarization audio_content
          authorization client_ip utcnow current_time state,
     licenses
       (snd (generate_note_from_text JWT_SECRET JWT_ALGORITHM jwt_decode
               local_utc_offset generate_soap_note
               text authorization client_ip utcnow current_time state))
     = snd (verify_token JWT_SECRET JWT_ALGORITHM jwt_decode
              local_utc_offset authorization utcnow (licenses state)) /\
     licenses
       (snd (generate_note_from_audio JWT_SECRET JWT_ALGORITHM jwt_decode
               local_utc_offset generate_soap_note transcribe_audio
               transcribe_audio_with_diarization
               content_type filename use_diarization audio_content
               authorization client_ip utcnow current_time state))
     = snd (verify_token JWT_SECRET JWT_ALGORITHM jwt_decode
              local_utc_offset authorization utcnow (licenses state))) /\
  (forall token utcnow db,
     match verify_token JWT_SECRET JWT_ALGORITHM jwt_decode
             local_utc_offset token utcnow db with
     | (Return payload, db') => charged_once (sub payload) db db'
     | (Raise _, db') => db' = db
     end).
Proof.
  intros Hq Hl Hops. split; [|split].
  - revert app Hq Hl. unfold perform_all.
    induction Hops as [|op rest Hop _ IH]; intros app Hq Hl; [exact Hq|].
    cbn [fold_left].
    destruct (perform_keeps_invariants op app Hop Hq Hl) as [Hq1 Hl1].
    exact (IH _ Hq1 Hl1).
  - intros. split; [apply text_endpoint_table|apply audio_endpoint_table].
  - intros token utcnow db.
    destruct (gate token utcnow db) as [[payload|e] db'] eqn:Hgate.
    + now apply (gate_grant_charges _ _ _ _ _ _ _ _ _ Hgate).
    + now destruct (gate_raise_inv _ _ _ _ _ _ _ _ _ Hgate) as [_ ->].
Qed.

End ReachableStates.

Lemma reachable_states_within_quota_witness :
  perform_all ex_secret ex_alg ex_decode 0 ex_soap ex_transcribe ex_diarize
    [Upsert "u1" "u1@clinic.example" "starter" 1 "cus_1" "sub_1"
       (ex_t0 * 1000000);
     AudioNote "audio/wav" "visit.wav" false []
       (Some "Bearer jwt.u1"%string) None (ex_t0 * 1000000 + 5) 101%float;
     AudioNote "audio/wav" "visit.wav" false []
       (Some "Bearer jwt.u1"%string) None (ex_t0 * 1000000 + 6) 102%float;
     TextNote "tooth 14 sensitive"
       (Some "Bearer jwt.u1"%string) None (ex_t0 * 1000000 + 7) 103%float]
    (mkApp [] ex_limiter)
  = mkApp [ex_license 1 1]
      (mkRateLimiter 10 60 {[ Some "u1"%string := [101%float] ]}) /\
  within_quota [ex_license 1 1].
Proof.
  assert (Hrun :
    perform_all ex_secret ex_alg ex_decode 0 ex_soap ex_transcribe ex_diarize
      [Upsert "u1" "u1@clinic.example" "starter" 1 "cus_1" "sub_1"
         (ex_t0 * 1000000);
       AudioNote "audio/wav" "visit.wav" false []
         (Some "Bearer jwt.u1"%string) None (ex_t0 * 1000000 + 5) 101%float;
       AudioNote "audio/wav" "visit.wav" false []
         (Some "Bearer jwt.u1"%string) None (ex_t0 * 1000000 + 6) 102%float;
       TextNote "tooth 14 sensitive"
         (Some "Bearer jwt.u1"%string) None (ex_t0 * 1000000 + 7) 103%float]
      (mkApp [] ex_limiter)
    = mkApp [ex_license 1 1]
        (mkRateLimiter 10 60 {[ Some "u1"%string := [101%float] ]}))
    by (vm_compute; reflexivity).
  split; [exact Hrun|].
  change [ex_license 1 1]
    with (licenses
            (mkApp [ex_license 1 1]
               (mkRateLimiter 10 60 {[ Some "u1"%string := [101%float] ]}))).
  rewrite <- Hrun.
  apply (reachable_states_within_quota ex_secret ex_alg ex_decode 0
           ex_soap ex_transcribe ex_diarize).
  - constructor.
  - constructor.
  - repeat constructor. simpl. lia.
Defined.
